(** * Shooter: the flywheel shooter component of pyinfiniterecharge

    A shallow embedding of [components/shooter.py] and the properties of
    its range table, readiness predicates and loading-piston latch.

    Conventions of the embedding.
    - Python numbers ([int], [float], numpy's [float64]) are values of
      [num]: a rational, one of the two infinities, or NaN.  Comparisons
      are exact and false against NaN, as in Python.  The arithmetic of
      [numpy.interp] is binary64: every operation is rounded to nearest,
      ties to even, by [fl], and overflows to an infinity.  The one
      subtraction of [is_at_speed] is kept exact: in binary64 it is
      exact whenever the two operands are within a factor of two of each
      other, which covers every error near the tolerance.
    - A method is a computation in [Act]: it receives the object, may
      mutate it, may send commands to the motor controllers and to the
      solenoid (recorded in order in a command log), and either returns
      or raises.  Attribute mutations done before an exception survive
      it, as in Python.
    - Live hardware readings (the two encoder velocities and the solenoid
      state) are inputs of the query methods, gathered in [Sensors].
    - Module [Shooter] holds the attributes of [__init__] and the
      method bodies as they run once the handles that [setup()] creates
      exist; module [Lifecycle] adds [setup()] itself and the
      [AttributeError] of a method called before it. *)

From Stdlib Require Import QArith Qabs Qround Qpower Qreduction.
From Stdlib Require Import ZArith List Bool Lia Lqa.
Import ListNotations.

Open Scope Q_scope.

(** ** Python numbers *)

Module Num.

Inductive num : Type :=
| Fin (q : Q)
| PInf
| NInf
| NaN.

Definition of_Z (z : Z) : num := Fin (inject_Z z).

Definition Qlt_bool (a b : Q) : bool := negb (Qle_bool b a).

(** [a <= b] *)
Definition le (a b : num) : bool :=
  match a, b with
  | NaN, _ | _, NaN => false
  | NInf, _ => true
  | _, PInf => true
  | Fin x, Fin y => Qle_bool x y
  | _, _ => false
  end.

(** [a < b] *)
Definition lt (a b : num) : bool :=
  match a, b with
  | NaN, _ | _, NaN => false
  | PInf, _ => false
  | _, NInf => false
  | Fin x, Fin y => Qlt_bool x y
  | _, _ => true
  end.

(** [a > b] *)
Definition gt (a b : num) : bool := lt b a.

(** [a - b] *)
Definition sub (a b : num) : num :=
  match a, b with
  | NaN, _ | _, NaN => NaN
  | PInf, PInf | NInf, NInf => NaN
  | PInf, _ => PInf
  | NInf, _ => NInf
  | Fin _, PInf => NInf
  | Fin _, NInf => PInf
  | Fin x, Fin y => Fin (x - y)
  end.

(** [abs(a)] *)
Definition abs (a : num) : num :=
  match a with
  | Fin x => Fin (Qabs x)
  | PInf | NInf => PInf
  | NaN => NaN
  end.

(** *** binary64 *)

Definition pow2 (k : Z) : Q := 2 ^ k.

(** The integer nearest to [u], ties to the even one. *)
Definition rne (u : Q) : Z :=
  let f := Qfloor u in
  match Qcompare (u - inject_Z f) (1 # 2) with
  | Lt => f
  | Gt => (f + 1)%Z
  | Eq => if Z.even f then f else (f + 1)%Z
  end.

(** For [x > 0], the exponent [e] with [2^e <= x < 2^(e+1)]. *)
Definition ilog2 (x : Q) : Z :=
  if Qle_bool 1 x then Z.log2 (Qfloor x)
  else (- Z.log2_up (Qceiling (/ x)))%Z.

(** The exponent of the last place of [x]: 53 significant bits, and
    never below the subnormal spacing [2^-1074]. *)
Definition ulp_exp (x : Q) : Z := Z.max (ilog2 (Qabs x) - 52) (-1074).

(** [x] rounded to the nearest multiple of its last place, ties to
    even, as a fraction in lowest terms; the exponent is not bounded
    above here. *)
Definition fl (x : Q) : Q :=
  let k := ulp_exp x in
  Qred (inject_Z (rne (x / pow2 k)) * pow2 k).

(** The binary64 value of the real number [x]: [fl x], or an infinity
    when that is [2^1024] or more in magnitude. *)
Definition round (x : Q) : num :=
  let r := fl x in
  if Qle_bool (pow2 1024) (Qabs r) then (if Qle_bool 0 r then PInf else NInf)
  else Fin r.

Definition is_nan (a : num) : bool :=
  match a with NaN => true | _ => false end.

(** The infinity with the sign of [x * y]. *)
Definition signed_inf (x : Q) (positive : bool) : num :=
  if Qlt_bool 0 x then (if positive then PInf else NInf)
  else (if positive then NInf else PInf).

(** binary64 [a + b] *)
Definition fadd (a b : num) : num :=
  match a, b with
  | NaN, _ | _, NaN => NaN
  | PInf, NInf | NInf, PInf => NaN
  | PInf, _ | _, PInf => PInf
  | NInf, _ | _, NInf => NInf
  | Fin x, Fin y => round (x + y)
  end.

(** binary64 [a - b] *)
Definition fsub (a b : num) : num :=
  match a, b with
  | NaN, _ | _, NaN => NaN
  | PInf, PInf | NInf, NInf => NaN
  | PInf, _ | _, NInf => PInf
  | NInf, _ | _, PInf => NInf
  | Fin x, Fin y => round (x - y)
  end.

(** binary64 [a * b] *)
Definition fmul (a b : num) : num :=
  match a, b with
  | NaN, _ | _, NaN => NaN
  | Fin x, Fin y => round (x * y)
  | Fin x, PInf | PInf, Fin x =>
    if Qeq_bool x 0 then NaN else signed_inf x true
  | Fin x, NInf | NInf, Fin x =>
    if Qeq_bool x 0 then NaN else signed_inf x false
  | PInf, PInf | NInf, NInf => PInf
  | PInf, NInf | NInf, PInf => NInf
  end.

(** binary64 [a / b]; a zero divisor is the positive zero, the only
    zero a difference of two numbers can be. *)
Definition fdiv (a b : num) : num :=
  match a, b with
  | NaN, _ | _, NaN => NaN
  | Fin x, Fin y =>
    if Qeq_bool y 0 then (if Qeq_bool x 0 then NaN else signed_inf x true)
    else round (x / y)
  | Fin _, PInf | Fin _, NInf => Fin 0
  | PInf, Fin y => if Qle_bool 0 y then PInf else NInf
  | NInf, Fin y => if Qle_bool 0 y then NInf else PInf
  | _, _ => NaN
  end.

(** Whether a number is one that binary64 holds. *)
Definition is_float64 (a : num) : Prop :=
  match a with
  | Fin x => fl x == x
  | _ => True
  end.

(** Python's builtin [max(a, b)]: the first argument is kept unless the
    second compares strictly greater. *)
Definition py_max (a b : num) : num := if gt b a then b else a.

(** Python's builtin [min(a, b)]: the first argument is kept unless the
    second compares strictly smaller. *)
Definition py_min (a b : num) : num := if lt b a then b else a.

End Num.

Import Num.

(** ** Exceptions and outcomes *)

Inductive exn : Type :=
| IndexError
| ValueError
| OverflowError.

Inductive outcome (A : Type) : Type :=
| Ok (a : A)
| Raise (e : exn).

Arguments Ok {A} a.
Arguments Raise {A} e.

(** ** numpy.interp

    [interp(x, xp, fp)] with a scalar [x] and the default [left], [right]
    and [period], following numpy's evaluation.  The three arguments are
    first converted to binary64, which raises [OverflowError] on a Python
    integer too large for it.  Then an empty [xp] and tables of different
    lengths are rejected; a single sample point is a special case;
    otherwise [x] beyond either end takes the end value, [x] on a sample
    point takes its value, and [x] strictly inside a segment is
    [slope * (x - xp[j]) + fp[j]] in binary64 arithmetic, each operation
    rounded (no fused multiply-add).  The tables hold integers, so no
    entry fails to convert for its type. *)

Module Numpy.

(** A Python integer as a binary64. *)
Definition to_float64 (z : Z) : outcome Q :=
  match round (inject_Z z) with
  | Fin q => Ok q
  | _ => Raise OverflowError
  end.

(** A tuple of Python integers as an array of binary64. *)
Fixpoint to_array (tup : list Z) : outcome (list Q) :=
  match tup with
  | [] => Ok []
  | z :: rest =>
    match to_float64 z with
    | Ok q =>
      match to_array rest with
      | Ok qs => Ok (q :: qs)
      | Raise e => Raise e
      end
    | Raise e => Raise e
    end
  end.

(** The scalar [x] as a binary64: a float is one already and is kept,
    an integer (a finite [num] that is not a binary64) is converted. *)
Definition as_float64 (x : num) : outcome num :=
  match x with
  | Fin q =>
    match round q with
    | Fin r => Ok (Fin r)
    | _ => Raise OverflowError
    end
  | _ => Ok x
  end.

(** The index [j] with [xp[j] <= x < xp[j+1]], found by a scan from the
    head of [xp] (numpy searches by bisection, which finds the same index
    in an increasing table); [x] is not below [xp[0]]. *)
Fixpoint search (x : Q) (xp : list Q) : nat :=
  match xp with
  | _ :: ((x1 :: _) as rest) => if Qle_bool x1 x then S (search x rest) else O
  | _ => O
  end.

Definition interp_inner (x : Q) (xp fp : list Q) : num :=
  let j := search x xp in
  let xj := nth j xp 0 in
  let yj := nth j fp 0 in
  if Nat.eqb j (length xp - 1) then Fin yj
  else if Qeq_bool xj x then Fin yj
  else
    let x1 := nth (S j) xp 0 in
    let y1 := nth (S j) fp 0 in
    let slope := fdiv (fsub (Fin y1) (Fin yj)) (fsub (Fin x1) (Fin xj)) in
    let res := fadd (fmul slope (fsub (Fin x) (Fin xj))) (Fin yj) in
    if is_nan res then
      (* a NaN in one direction: try from the other end of the segment *)
      let res' := fadd (fmul slope (fsub (Fin x) (Fin x1))) (Fin y1) in
      if is_nan res' && Qeq_bool yj y1 then Fin yj else res'
    else res.

Definition interp (x : num) (xp fp : list Z) : outcome num :=
  match to_array fp with
  | Raise e => Raise e
  | Ok dy =>
  match to_array xp with
  | Raise e => Raise e
  | Ok dx =>
  match as_float64 x with
  | Raise e => Raise e
  | Ok x =>
  match dx with
  | [] => Raise ValueError
  | x0 :: dx' =>
    if negb (Nat.eqb (length dy) (length dx)) then Raise ValueError
    else
      let lval := nth 0 dy 0 in
      let rval := last dy 0 in
      match dx' with
      | [] =>
        Ok (Fin (if lt x (Fin x0) then lval
                 else if gt x (Fin x0) then rval else lval))
      | _ =>
        match x with
        | NaN => Ok NaN
        | PInf => Ok (Fin rval)
        | NInf => Ok (Fin lval)
        | Fin q =>
          if Qlt_bool (last dx 0) q then Ok (Fin rval)
          else if Qlt_bool q x0 then Ok (Fin lval)
          else Ok (interp_inner q dx dy)
        end
      end
  end end end end.


End Numpy.

(** ** Hardware *)

Inductive Motor : Type :=
| centre_motor
| outer_motor.

Inductive ControlType : Type :=
| kVelocity.

(** The calls the component makes on its collaborators: [stopMotor()] on
    a motor controller, [setReference(value, ctrl)] on the PID controller
    of a motor, [startPulse()] on the loading piston's solenoid. *)
Inductive Cmd : Type :=
| stopMotor (m : Motor)
| setReference (m : Motor) (value : num) (ctrl : ControlType)
| startPulse.

(** What the hardware reports when asked:
    [centre_encoder.getVelocity()], [outer_encoder.getVelocity()] and
    [loading_piston.get()]. *)
Record Sensors : Type := {
  centre_velocity : num;
  outer_velocity : num;
  loading_piston_get : bool
}.

Definition is_stop_of (m : Motor) (c : Cmd) : bool :=
  match c, m with
  | stopMotor centre_motor, centre_motor => true
  | stopMotor outer_motor, outer_motor => true
  | _, _ => false
  end.

Definition is_setReference (c : Cmd) : bool :=
  match c with setReference _ _ _ => true | _ => false end.

Definition is_startPulse (c : Cmd) : bool :=
  match c with startPulse => true | _ => false end.

(** Number of commands of a log that satisfy [p]. *)
Definition count (p : Cmd -> bool) (log : list Cmd) : nat :=
  length (filter p log).

(** ** The component *)

Module Shooter.

(** The class attributes read through [self]. *)
Record class : Type := {
  ranges : list Z;
  centre_rpms : list Z
}.

(** [class Shooter] as written. *)
Definition Shooter : class := {|
  ranges := [7; 8; 9; 10; 11]%Z;
  centre_rpms := [880; 1120; 1500; 2150; 2400]%Z
|}.

(** An instance: its class and the attributes set by [__init__]. *)
Record t : Type := {
  cls : class;
  outer_rpm : num;
  centre_rpm : num;
  inject : bool;
  in_range : bool;
  velocity_tolerance : num
}.

Definition set_outer_rpm (v : num) (s : t) : t :=
  {| cls := cls s; outer_rpm := v; centre_rpm := centre_rpm s;
     inject := inject s; in_range := in_range s;
     velocity_tolerance := velocity_tolerance s |}.

Definition set_centre_rpm (v : num) (s : t) : t :=
  {| cls := cls s; outer_rpm := outer_rpm s; centre_rpm := v;
     inject := inject s; in_range := in_range s;
     velocity_tolerance := velocity_tolerance s |}.

Definition set_inject (b : bool) (s : t) : t :=
  {| cls := cls s; outer_rpm := outer_rpm s; centre_rpm := centre_rpm s;
     inject := b; in_range := in_range s;
     velocity_tolerance := velocity_tolerance s |}.

Definition set_in_range (b : bool) (s : t) : t :=
  {| cls := cls s; outer_rpm := outer_rpm s; centre_rpm := centre_rpm s;
     inject := inject s; in_range := b;
     velocity_tolerance := velocity_tolerance s |}.

(** *** Method bodies as computations *)

Definition Act (A : Type) : Type := t -> outcome A * t * list Cmd.

Definition ret {A} (a : A) : Act A := fun s => (Ok a, s, []).

Definition bind {A B} (m : Act A) (f : A -> Act B) : Act B :=
  fun s =>
    match m s with
    | (Ok a, s1, l1) =>
      match f a s1 with
      | (r, s2, l2) => (r, s2, l1 ++ l2)
      end
    | (Raise e, s1, l1) => (Raise e, s1, l1)
    end.

Notation "x <- m ;; k" := (bind m (fun x => k))
  (at level 61, m at next level, right associativity).
Notation "m ;; k" := (bind m (fun _ => k))
  (at level 61, right associativity).

(** [self.attr] *)
Definition attr {A} (f : t -> A) : Act A := fun s => (Ok (f s), s, []).

(** [self.attr = v] *)
Definition assign (upd : t -> t) : Act unit := fun s => (Ok tt, upd s, []).

(** A call on a collaborator. *)
Definition send (c : Cmd) : Act unit := fun s => (Ok tt, s, [c]).

(** A library call that may raise. *)
Definition lift {A} (r : outcome A) : Act A := fun s => (r, s, []).

(** [tup[0]] *)
Definition first_item (tup : list Z) : outcome num :=
  match tup with
  | [] => Raise IndexError
  | z :: _ => Ok (of_Z z)
  end.

(** [tup[-1]] *)
Definition last_item (tup : list Z) : outcome num :=
  match tup with
  | [] => Raise IndexError
  | z :: rest => Ok (of_Z (last rest z))
  end.

(** The state of the outcome of a method call, its result and its
    command log. *)
Definition state_of {A} (r : outcome A * t * list Cmd) : t := snd (fst r).
Definition result_of {A} (r : outcome A * t * list Cmd) : outcome A :=
  fst (fst r).
Definition log_of {A} (r : outcome A * t * list Cmd) : list Cmd := snd r.

(** *** Methods *)

(** [def __init__(self)]: takes no argument and reads no class
    attribute; [c] is the class being instantiated. *)
Definition __init__ (c : class) : outcome t :=
  Ok {| cls := c;
        outer_rpm := of_Z 0;
        centre_rpm := of_Z 0;
        inject := false;
        in_range := false;
        velocity_tolerance := of_Z 50 |}.

(** [def on_enable(self)] *)
Definition on_enable : Act unit :=
  send (stopMotor centre_motor) ;;
  send (stopMotor outer_motor).

(** [def execute(self)], once [centre_pid] and [outer_pid] exist; see
    [Lifecycle.execute] for the call before [setup()]. *)
Definition execute : Act unit :=
  c <- attr centre_rpm ;;
  send (setReference centre_motor c kVelocity) ;;
  o <- attr outer_rpm ;;
  send (setReference outer_motor o kVelocity) ;;
  inj <- attr inject ;;
  if inj then
    send startPulse ;;
    assign (set_inject false)
  else ret tt.

(** The [else] branch of [set_range]: clamp, then clear [in_range]. *)
Definition clamp_range (dist : num) : Act num :=
  tup <- attr (fun s => ranges (cls s)) ;;
  hi <- lift (last_item tup) ;;
  lo <- lift (first_item tup) ;;
  assign (set_in_range false) ;;
  ret (py_min hi (py_max dist lo)).

(** [def set_range(self, dist)].  The chained comparison
    [ranges[0] <= dist <= ranges[-1]] reads [ranges[-1]] only when its
    first half holds. *)
Definition set_range (dist : num) : Act unit :=
  tup <- attr (fun s => ranges (cls s)) ;;
  lo <- lift (first_item tup) ;;
  dist' <- (if le lo dist then
              hi <- lift (last_item tup) ;;
              if le dist hi then
                assign (set_in_range true) ;;
                ret dist
              else clamp_range dist
            else clamp_range dist) ;;
  fp <- attr (fun s => centre_rpms (cls s)) ;;
  y <- lift (Numpy.interp dist' tup fp) ;;
  assign (set_centre_rpm y) ;;
  assign (set_outer_rpm (of_Z 5000)).

(** [def is_at_speed(self)], once the two encoders exist; see
    [Lifecycle.is_at_speed] for the call before [setup()]. *)
Definition is_at_speed (s : t) (hw : Sensors) : bool :=
  le (abs (sub (centre_rpm s) (centre_velocity hw))) (velocity_tolerance s)
  && le (abs (sub (outer_rpm s) (outer_velocity hw))) (velocity_tolerance s).

(** [def get_centre_velocity(self)] and [def get_outer_velocity(self)] *)
Definition get_centre_velocity (s : t) (hw : Sensors) : num :=
  centre_velocity hw.

Definition get_outer_velocity (s : t) (hw : Sensors) : num :=
  outer_velocity hw.

(** [def is_firing(self)]: [not self.loading_piston.get()] *)
Definition is_firing (s : t) (hw : Sensors) : bool :=
  negb (loading_piston_get hw).

(** [def is_in_range(self)] *)
Definition is_in_range (s : t) : bool := in_range s.

(** [def is_ready(self)]: a chain of [and], which stops at the first
    false operand. *)
Definition is_ready (s : t) (hw : Sensors) : bool :=
  if is_in_range s then
    if is_at_speed s hw then negb (is_firing s hw) else false
  else false.

(** [def fire(self)] *)
Definition fire : Act unit := assign (set_inject true).

(** *** Sequences of calls *)

Inductive Call : Type :=
| SetRange (dist : num)
| Fire
| Execute
| OnEnable.

Definition call (c : Call) : Act unit :=
  match c with
  | SetRange d => set_range d
  | Fire => fire
  | Execute => execute
  | OnEnable => on_enable
  end.

(** The calls of [cs] in order; an exception ends the sequence. *)
Fixpoint run (cs : list Call) : Act unit :=
  match cs with
  | [] => ret tt
  | c :: rest => call c ;; run rest
  end.

(** The attributes of a freshly constructed instance of
    [class Shooter]: what [__init__] sets.  The attributes [setup()]
    adds are tracked in [Lifecycle]. *)
Definition fresh : t :=
  {| cls := Shooter;
     outer_rpm := of_Z 0;
     centre_rpm := of_Z 0;
     inject := false;
     in_range := false;
     velocity_tolerance := of_Z 50 |}.

(** The states a [Shooter] can be in: those some sequence of calls
    reaches from a fresh instance. *)
Definition reachable (s : t) : Prop :=
  exists cs,
    result_of (run cs fresh) = Ok tt /\ state_of (run cs fresh) = s.

End Shooter.

Import Shooter.

(** ** Specification-side notions *)

Module Spec.

(** The calibration table as breakpoints (distance, centre rpm). *)
Definition breakpoints (c : class) : list (Q * Q) :=
  combine (map inject_Z (ranges c)) (map inject_Z (centre_rpms c)).

(** [y] is the value at [d] of the line through [p0] and [p1], and [d]
    lies between the two. *)
Definition on_segment (p0 p1 : Q * Q) (d y : Q) : Prop :=
  fst p0 <= d <= fst p1 /\
  y == snd p0 + (snd p1 - snd p0) * ((d - fst p0) / (fst p1 - fst p0)).

(** Piecewise-linear interpolation: [y] is the value at [d] on the
    segment between two consecutive breakpoints that bracket [d]. *)
Definition linear_interpolate (pts : list (Q * Q)) (d y : Q) : Prop :=
  exists i p0 p1,
    nth_error pts i = Some p0 /\ nth_error pts (S i) = Some p1 /\
    on_segment p0 p1 d y.

(** A table with fewer than two breakpoints, or with distance and rpm
    columns of different lengths. *)
Definition malformed (c : class) : bool :=
  (length (ranges c) <? 2)%nat
  || negb (length (ranges c) =? length (centre_rpms c))%nat.

Fixpoint strictly_increasing (l : list Z) : bool :=
  match l with
  | a :: ((b :: _) as rest) => (a <? b)%Z && strictly_increasing rest
  | _ => true
  end.

(** The endpoint of the table nearest to a distance that lies outside
    it. *)
Definition nearest_endpoint (d : num) : num :=
  if lt d (of_Z 7) then of_Z 7 else of_Z 11.

Definition is_Fire (c : Call) : bool :=
  match c with Fire => true | _ => false end.

Definition is_Execute (c : Call) : bool :=
  match c with Execute => true | _ => false end.

Definition is_SetRange (c : Call) : bool :=
  match c with SetRange _ => true | _ => false end.

(** *** Notions used in the proofs *)

(** Whether a distance lies within the table. *)
Definition in_table (d : num) : bool := le (of_Z 7) d && le d (of_Z 11).

(** The distance handed to [interp]: the argument itself when it lies
    within the table, the clamped one otherwise. *)
Definition clamped (d : num) : num :=
  if in_table d then d else py_min (of_Z 11) (py_max d (of_Z 7)).

(** The binary64 evaluation of one segment of the table: slope [s]
    from the breakpoint [(xj, yj)]. *)
Definition seg (s xj yj x : Q) : Q := fl (fl (s * fl (x - xj)) + yj).

(** What [interp] computes over the table of [class Shooter] for a
    distance within the table. *)
Definition curve (q : Q) : Q :=
  let x := fl q in
  if Qlt_bool x 8 then seg 240 7 880 x
  else if Qlt_bool x 9 then seg 380 8 1120 x
  else if Qlt_bool x 10 then seg 650 9 1500 x
  else if Qlt_bool x 11 then seg 250 10 2150 x
  else 2400.

(** The centre target is a finite value between the least and the
    greatest entry of the rpm table. *)
Definition bounded (s : t) : Prop :=
  exists y, centre_rpm s = Fin y /\ 880 <= y <= 2400.

(** The velocity error between a target and a reading is no more than
    [tol]: both are finite and their distance is at most [tol]. *)
Definition error_within (tol : Q) (target reading : num) : Prop :=
  exists a b, target = Fin a /\ reading = Fin b /\ Qabs (a - b) <= tol.

End Spec.

Import Spec.

(** ** Notions for the further properties *)

Module Props.

(** How many calls of a sequence satisfy [p]. *)
Definition calls (p : Call -> bool) (cs : list Call) : nat :=
  length (filter p cs).

Definition is_OnEnable (c : Call) : bool :=
  match c with OnEnable => true | _ => false end.

(** The targets of a Shooter: still the zeros of [__init__] with
    [in_range] false, or a centre target within the table and an outer
    target of 5000. *)
Definition targets_ok (s : t) : Prop :=
  (centre_rpm s = of_Z 0 /\ outer_rpm s = of_Z 0 /\ in_range s = false) \/
  (bounded s /\ outer_rpm s = of_Z 5000).

(** A command that carries a velocity reference carries one of the
    values [targets_ok] allows. *)
Definition reference_ok (c : Cmd) : Prop :=
  match c with
  | setReference centre_motor v _ =>
    v = of_Z 0 \/ exists y, v = Fin y /\ 880 <= y <= 2400
  | setReference outer_motor v _ => v = of_Z 0 \/ v = of_Z 5000
  | _ => True
  end.

Definition is_stopMotor (c : Cmd) : bool :=
  match c with stopMotor _ => true | _ => false end.

Definition b2n (b : bool) : nat := if b then 1 else 0.

End Props.

Import Props.

(** ** [setup] and the attributes it creates

    [setup()] configures the hardware and assigns four attributes that
    [__init__] does not create: [outer_encoder], [centre_encoder],
    [centre_pid] and [outer_pid].  A method that reads one of them on an
    object where it is missing raises [AttributeError].  [Lifecycle]
    tracks which of the four exist; the floating-point gains are written
    as the rationals of their decimal literals. *)

Module Lifecycle.

Inductive IdleMode : Type :=
| kCoast.

(** The configuration calls of [setup()]. *)
Inductive Config : Type :=
| setPulseDuration (seconds : Q)
| setIdleMode (m : Motor) (mode : IdleMode)
| setInverted (m : Motor) (isInverted : bool)
| getEncoder (m : Motor)
| getPIDController (m : Motor)
| setP (m : Motor) (gain : Q)
| setI (m : Motor) (gain : Q)
| setD (m : Motor) (gain : Q)
| setFF (m : Motor) (gain : Q).

(** A call on the hardware: a configuration call or a command. *)
Inductive HwCall : Type :=
| Configure (c : Config)
| Command (c : Cmd).

Inductive error : Type :=
| AttributeError
| Raised (e : exn).

Inductive result (A : Type) : Type :=
| Return (a : A)
| Fail (e : error).

Arguments Return {A} a.
Arguments Fail {A} e.

(** The object together with which attributes of [setup()] exist. *)
Record obj : Type := {
  self : t;
  has_outer_encoder : bool;
  has_centre_encoder : bool;
  has_centre_pid : bool;
  has_outer_pid : bool
}.

(** The object as constructed, before [setup()]. *)
Definition constructed (s : t) : obj :=
  {| self := s; has_outer_encoder := false; has_centre_encoder := false;
     has_centre_pid := false; has_outer_pid := false |}.

Definition with_self (o : obj) (s : t) : obj :=
  {| self := s; has_outer_encoder := has_outer_encoder o;
     has_centre_encoder := has_centre_encoder o;
     has_centre_pid := has_centre_pid o; has_outer_pid := has_outer_pid o |}.

(** A method that reads none of the four attributes, or finds them. *)
Definition found {A} (o : obj) (r : outcome A * t * list Cmd)
  : result A * obj * list HwCall :=
  (match result_of r with Ok a => Return a | Raise e => Fail (Raised e) end,
   with_self o (state_of r),
   map Command (log_of r)).

(** [def setup(self)] *)
Definition setup (o : obj) : obj * list HwCall :=
  ({| self := self o; has_outer_encoder := true; has_centre_encoder := true;
      has_centre_pid := true; has_outer_pid := true |},
   map Configure
     [setPulseDuration (1 # 2);
      setIdleMode outer_motor kCoast;
      setIdleMode centre_motor kCoast;
      setInverted outer_motor false;
      setInverted centre_motor true;
      getEncoder outer_motor;
      getEncoder centre_motor;
      getPIDController centre_motor;
      getPIDController outer_motor;
      setP outer_motor ((279 # 10000) / 60);
      setI outer_motor (1 # 1000000);
      setD outer_motor 0;
      setFF outer_motor (156 # 1000000);
      setP centre_motor ((247 # 10000) / 60);
      setI centre_motor (1 # 1000000);
      setD centre_motor 0;
      setFF centre_motor (156 # 1000000)]).

(** [def execute(self)]: [self.centre_pid] is read first, [self.outer_pid]
    after the centre reference has been sent. *)
Definition execute (o : obj) : result unit * obj * list HwCall :=
  if has_centre_pid o then
    if has_outer_pid o then found o (Shooter.execute (self o))
    else
      (Fail AttributeError, o,
       [Command (setReference centre_motor (centre_rpm (self o)) kVelocity)])
  else (Fail AttributeError, o, []).

(** [def is_at_speed(self)]: [self.outer_encoder] is read only when the
    centre wheel is within tolerance. *)
Definition is_at_speed (o : obj) (hw : Sensors) : result bool :=
  if has_centre_encoder o then
    if le (abs (sub (centre_rpm (self o)) (centre_velocity hw)))
          (velocity_tolerance (self o))
    then
      if has_outer_encoder o then
        Return (le (abs (sub (outer_rpm (self o)) (outer_velocity hw)))
                   (velocity_tolerance (self o)))
      else Fail AttributeError
    else Return false
  else Fail AttributeError.

(** [def get_centre_velocity(self)] *)
Definition get_centre_velocity (o : obj) (hw : Sensors) : result num :=
  if has_centre_encoder o then Return (centre_velocity hw)
  else Fail AttributeError.

(** [def get_outer_velocity(self)] *)
Definition get_outer_velocity (o : obj) (hw : Sensors) : result num :=
  if has_outer_encoder o then Return (outer_velocity hw)
  else Fail AttributeError.

(** [def is_ready(self)]: [is_at_speed()] is called only when
    [is_in_range()] is true. *)
Definition is_ready (o : obj) (hw : Sensors) : result bool :=
  if is_in_range (self o) then
    match is_at_speed o hw with
    | Return true => Return (negb (is_firing (self o) hw))
    | Return false => Return false
    | Fail e => Fail e
    end
  else Return false.

(** The methods that use the injected motors and solenoid only. *)
Definition on_enable (o : obj) : result unit * obj * list HwCall :=
  found o (Shooter.on_enable (self o)).

Definition set_range (d : num) (o : obj) : result unit * obj * list HwCall :=
  found o (Shooter.set_range d (self o)).

Definition fire (o : obj) : result unit * obj * list HwCall :=
  found o (Shooter.fire (self o)).

(** Whether the four attributes of [setup()] all exist. *)
Definition has_handles (o : obj) : bool :=
  has_outer_encoder o && has_centre_encoder o
  && has_centre_pid o && has_outer_pid o.

Definition call (c : Call) (o : obj) : result unit * obj * list HwCall :=
  match c with
  | SetRange d => set_range d o
  | Fire => fire o
  | Execute => execute o
  | OnEnable => on_enable o
  end.

(** The calls of [cs] in order; an exception ends the sequence. *)
Fixpoint run (cs : list Call) (o : obj) : result unit * obj * list HwCall :=
  match cs with
  | [] => (Return tt, o, [])
  | c :: rest =>
    match call c o with
    | (Return _, o1, l1) =>
      match run rest o1 with
      | (r, o2, l2) => (r, o2, l1 ++ l2)
      end
    | (Fail e, o1, l1) => (Fail e, o1, l1)
    end
  end.

Definition is_Command (c : HwCall) : bool :=
  match c with Command _ => true | Configure _ => false end.

Definition is_pulse (c : HwCall) : bool :=
  match c with Command startPulse => true | _ => false end.

End Lifecycle.

(** ** Comparisons on rationals *)

Lemma Qlt_bool_true (a b : Q) : Qlt_bool a b = true <-> a < b.
Proof.
  unfold Qlt_bool. rewrite negb_true_iff.
  split; intro H.
  - apply Qnot_le_lt. intro L. apply Qle_bool_iff in L. congruence.
  - destruct (Qle_bool b a) eqn:E; [|reflexivity].
    apply Qle_bool_iff in E. apply Qle_not_lt in E. contradiction.
Qed.

Lemma Qlt_bool_false (a b : Q) : Qlt_bool a b = false <-> b <= a.
Proof.
  unfold Qlt_bool. rewrite negb_false_iff. apply Qle_bool_iff.
Qed.

Lemma Qle_bool_false (a b : Q) : Qle_bool a b = false <-> b < a.
Proof.
  rewrite <- Qlt_bool_true. unfold Qlt_bool.
  destruct (Qle_bool a b); simpl; intuition congruence.
Qed.

(** Turns every boolean comparison of the context into an order fact. *)
Ltac order_facts :=
  repeat match goal with
  | H : Qle_bool _ _ = true |- _ => apply Qle_bool_iff in H
  | H : Qle_bool _ _ = false |- _ => apply Qle_bool_false in H
  | H : Qlt_bool _ _ = true |- _ => apply Qlt_bool_true in H
  | H : Qlt_bool _ _ = false |- _ => apply Qlt_bool_false in H
  | H : Qeq_bool _ _ = true |- _ => apply Qeq_bool_iff in H
  | H : Qeq_bool _ _ = false |- _ => apply Qeq_bool_neq in H
  end.

(** Evaluates the reciprocals of constants, so that [lra] sees linear
    terms only. *)
Ltac eval_inverses :=
  unfold Qdiv;
  repeat match goal with
  | |- context [Qinv ?b] =>
    let v := eval vm_compute in (Qinv b) in change (Qinv b) with v
  end.

(** ** Rounding to binary64 *)

Lemma rne_floor (u : Q) : (Qfloor u <= rne u <= Qfloor u + 1)%Z.
Proof.
  unfold rne. destruct (Qcompare _ _); try destruct (Z.even _); lia.
Qed.

Lemma rne_Z (u : Q) (m : Z) : u == inject_Z m -> rne u = m.
Proof.
  intros E. unfold rne.
  assert (F : Qfloor u = m) by (rewrite E; apply Qfloor_Z).
  rewrite F.
  assert (L' : (u - inject_Z m ?= 1 # 2) = Lt).
  { apply Qlt_alt. rewrite E.
    assert (H : inject_Z m - inject_Z m == 0) by ring.
    rewrite H. reflexivity. }
  rewrite L'. reflexivity.
Qed.

Lemma rne_up (u : Q) : rne u = (Qfloor u + 1)%Z -> 1 # 2 <= u - inject_Z (Qfloor u).
Proof.
  unfold rne. destruct (Qcompare _ _) eqn:C.
  - intros _. apply Qeq_alt in C. rewrite C. apply Qle_refl.
  - intros H. lia.
  - intros _. apply Qgt_alt in C. apply Qlt_le_weak. exact C.
Qed.

Lemma rne_down (u : Q) : rne u = Qfloor u -> u - inject_Z (Qfloor u) <= 1 # 2.
Proof.
  unfold rne. destruct (Qcompare _ _) eqn:C.
  - intros _. apply Qeq_alt in C. rewrite C. apply Qle_refl.
  - intros _. apply Qlt_alt in C. apply Qlt_le_weak. exact C.
  - intros H. lia.
Qed.

Lemma rne_mono (u v : Q) : u <= v -> (rne u <= rne v)%Z.
Proof.
  intros L.
  pose proof (Qfloor_resp_le u v L) as F.
  pose proof (rne_floor u) as Bu. pose proof (rne_floor v) as Bv.
  destruct (Z.eq_dec (Qfloor u) (Qfloor v)) as [E|N]; [|lia].
  destruct (Z.eq_dec (rne u) (Qfloor u + 1)) as [U|U]; [|lia].
  destruct (Z.eq_dec (rne v) (Qfloor v)) as [V|V]; [|lia].
  (* u rounds up, v rounds down, same floor: both are ties *)
  pose proof (rne_up u U) as Hu. pose proof (rne_down v V) as Hv.
  rewrite <- E in Hv.
  assert (T : u - inject_Z (Qfloor u) == 1 # 2) by lra.
  assert (T' : v - inject_Z (Qfloor u) == 1 # 2) by lra.
  exfalso. revert U V. unfold rne. rewrite <- E.
  apply Qeq_alt in T. apply Qeq_alt in T'. rewrite T, T'.
  destruct (Z.even (Qfloor u)); lia.
Qed.

Lemma rne_err (u : Q) : Qabs (inject_Z (rne u) - u) <= 1 # 2.
Proof.
  pose proof (Qfloor_le u) as F1. pose proof (Qlt_floor u) as F2.
  rewrite inject_Z_plus in F2.
  apply Qabs_Qle_condition.
  destruct (Z.eq_dec (rne u) (Qfloor u)) as [D|D].
  - pose proof (rne_down u D). rewrite D. change (inject_Z 1) with 1 in F2. lra.
  - assert (U : rne u = (Qfloor u + 1)%Z) by (pose proof (rne_floor u); lia).
    pose proof (rne_up u U). rewrite U, inject_Z_plus.
    change (inject_Z 1) with 1 in *. lra.
Qed.

Lemma pow2_pos (k : Z) : 0 < pow2 k.
Proof. apply Qpower_0_lt. reflexivity. Qed.

Lemma pow2_le (n m : Z) : (n <= m)%Z -> pow2 n <= pow2 m.
Proof. intros H. apply Qpower_le_compat_l; [exact H|discriminate]. Qed.

Lemma pow2_lt_inv (n m : Z) : pow2 n < pow2 m -> (n < m)%Z.
Proof. intros H. apply (Qpower_lt_compat_l_inv 2); [exact H|reflexivity]. Qed.

Lemma pow2_plus (n m : Z) : pow2 (n + m) == pow2 n * pow2 m.
Proof. apply Qpower_plus. discriminate. Qed.

Lemma pow2_Z (n : Z) : (0 <= n)%Z -> pow2 n == inject_Z (2 ^ n).
Proof. intros H. unfold pow2. rewrite Zpower_Qpower by exact H. reflexivity. Qed.

Lemma pow2_opp (n : Z) : pow2 (- n) == / pow2 n.
Proof. apply Qpower_opp. Qed.

Lemma ilog2_spec (x : Q) : 0 < x -> pow2 (ilog2 x) <= x < pow2 (ilog2 x + 1).
Proof.
  intros Hx. unfold ilog2. destruct (Qle_bool 1 x) eqn:E.
  - apply Qle_bool_iff in E.
    assert (F1 : (1 <= Qfloor x)%Z).
    { change 1%Z with (Qfloor 1). apply Qfloor_resp_le. exact E. }
    destruct (Z.log2_spec (Qfloor x)) as [L1 L2]; [lia|].
    pose proof (Z.log2_nonneg (Qfloor x)) as N.
    rewrite !pow2_Z by lia. split.
    + apply Qle_trans with (inject_Z (Qfloor x)); [|apply Qfloor_le].
      rewrite <- Zle_Qle. exact L1.
    + apply Qlt_le_trans with (inject_Z (Qfloor x + 1)); [apply Qlt_floor|].
      rewrite <- Zle_Qle. replace (Z.log2 (Qfloor x) + 1)%Z with (Z.succ (Z.log2 (Qfloor x))) by lia. lia.
  - assert (L : x < 1).
    { apply Qnot_le_lt. intros H. apply Qle_bool_iff in H. congruence. }
    assert (Y : 1 < / x).
    { apply Qlt_shift_inv_l; [exact Hx|]. lra. }
    remember (/ x) as y eqn:Ey.
    assert (C : (1 < Qceiling y)%Z).
    { assert (inject_Z 1 < inject_Z (Qceiling y)).
      { apply Qlt_le_trans with y; [exact Y|apply Qle_ceiling]. }
      rewrite <- Zlt_Qlt in H. exact H. }
    destruct (Z.log2_up_spec (Qceiling y) C) as [U1 U2].
    remember (Z.log2_up (Qceiling y)) as c eqn:Ec.
    assert (Cp : (0 < c)%Z) by (rewrite Ec; apply Z.log2_up_pos; exact C).
    assert (Yc : y <= pow2 c).
    { rewrite pow2_Z by lia. apply Qle_trans with (inject_Z (Qceiling y)); [apply Qle_ceiling|].
      rewrite <- Zle_Qle. exact U2. }
    assert (Yc' : pow2 (c - 1) < y).
    { rewrite pow2_Z by lia.
      apply Qle_lt_trans with (inject_Z (Qceiling y - 1)); [|apply Qceiling_lt].
      rewrite <- Zle_Qle. replace (c - 1)%Z with (Z.pred c) by lia. lia. }
    assert (X : x == / y) by (rewrite Ey, Qinv_involutive; reflexivity).
    assert (Y0 : 0 < y) by (apply Qlt_trans with 1; [reflexivity|exact Y]).
    split.
    + rewrite pow2_opp, X.
      destruct (Qle_lt_or_eq _ _ Yc) as [Hlt|Heq].
      * apply Qlt_le_weak. exact (proj1 (Qinv_lt_contravar y (pow2 c) Y0 (pow2_pos c)) Hlt).
      * rewrite Heq. apply Qle_refl.
    + replace (- c + 1)%Z with (- (c - 1))%Z by lia.
      rewrite pow2_opp, X. exact (proj1 (Qinv_lt_contravar (pow2 (c - 1)) y (pow2_pos _) Y0) Yc').
Qed.

Lemma fl_eq (x : Q) :
  fl x == inject_Z (rne (x / pow2 (ulp_exp x))) * pow2 (ulp_exp x).
Proof. unfold fl. apply Qred_correct. Qed.

(** [fl x] stays on the same side of every point of the grid of [x]. *)
Lemma fl_le_grid (x : Q) (m : Z) :
  x <= inject_Z m * pow2 (ulp_exp x) -> fl x <= inject_Z m * pow2 (ulp_exp x).
Proof.
  intros H. rewrite fl_eq.
  apply Qmult_le_compat_r; [|apply Qlt_le_weak, pow2_pos].
  rewrite <- Zle_Qle.
  apply Z.le_trans with (rne (inject_Z m));
    [|rewrite (rne_Z (inject_Z m) m (Qeq_refl _)); apply Z.le_refl].
  apply rne_mono. apply Qle_shift_div_r; [apply pow2_pos|exact H].
Qed.

Lemma fl_ge_grid (x : Q) (m : Z) :
  inject_Z m * pow2 (ulp_exp x) <= x -> inject_Z m * pow2 (ulp_exp x) <= fl x.
Proof.
  intros H. rewrite fl_eq.
  apply Qmult_le_compat_r; [|apply Qlt_le_weak, pow2_pos].
  rewrite <- Zle_Qle.
  apply Z.le_trans with (rne (inject_Z m));
    [rewrite (rne_Z (inject_Z m) m (Qeq_refl _)); apply Z.le_refl|].
  apply rne_mono. apply Qle_shift_div_l; [apply pow2_pos|exact H].
Qed.

Lemma pow2_grid (n k : Z) :
  (k <= n)%Z -> pow2 n == inject_Z (2 ^ (n - k)) * pow2 k.
Proof.
  intros H. rewrite <- pow2_Z by lia. rewrite <- pow2_plus.
  replace (n - k + k)%Z with n by lia. reflexivity.
Qed.

Lemma fl_le_pow2 (x : Q) (n : Z) :
  (ulp_exp x <= n)%Z -> x <= pow2 n -> fl x <= pow2 n.
Proof.
  intros K H. rewrite (pow2_grid n _ K) in *. apply fl_le_grid. exact H.
Qed.

Lemma fl_ge_pow2 (x : Q) (n : Z) :
  (ulp_exp x <= n)%Z -> pow2 n <= x -> pow2 n <= fl x.
Proof.
  intros K H. rewrite (pow2_grid n _ K) in *. apply fl_ge_grid. exact H.
Qed.

Lemma fl_le_opp_pow2 (x : Q) (n : Z) :
  (ulp_exp x <= n)%Z -> x <= - pow2 n -> fl x <= - pow2 n.
Proof.
  intros K H.
  assert (E : - pow2 n == inject_Z (- 2 ^ (n - ulp_exp x)) * pow2 (ulp_exp x)).
  { rewrite (pow2_grid n _ K), inject_Z_opp. ring. }
  rewrite E in *. apply fl_le_grid. exact H.
Qed.

Lemma fl_ge_opp_pow2 (x : Q) (n : Z) :
  (ulp_exp x <= n)%Z -> - pow2 n <= x -> - pow2 n <= fl x.
Proof.
  intros K H.
  assert (E : - pow2 n == inject_Z (- 2 ^ (n - ulp_exp x)) * pow2 (ulp_exp x)).
  { rewrite (pow2_grid n _ K), inject_Z_opp. ring. }
  rewrite E in *. apply fl_ge_grid. exact H.
Qed.

Lemma fl_nonpos (x : Q) : x <= 0 -> fl x <= 0.
Proof.
  intros H.
  assert (E : 0 == inject_Z 0 * pow2 (ulp_exp x)) by ring.
  rewrite E. apply fl_le_grid. rewrite <- E. exact H.
Qed.

Lemma fl_nonneg (x : Q) : 0 <= x -> 0 <= fl x.
Proof.
  intros H.
  assert (E : 0 == inject_Z 0 * pow2 (ulp_exp x)) by ring.
  rewrite E. apply fl_ge_grid. rewrite <- E. exact H.
Qed.

Lemma fl_same_grid (x y : Q) :
  ulp_exp x = ulp_exp y -> x <= y -> fl x <= fl y.
Proof.
  intros K H. rewrite (fl_eq x), (fl_eq y), K.
  apply Qmult_le_compat_r; [|apply Qlt_le_weak, pow2_pos].
  rewrite <- Zle_Qle. apply rne_mono.
  apply Qmult_le_compat_r; [exact H|].
  apply Qlt_le_weak, Qinv_lt_0_compat, pow2_pos.
Qed.

(** The exponent of a nonzero number. *)
Lemma ulp_exp_spec (x : Q) :
  0 < Qabs x ->
  pow2 (ilog2 (Qabs x)) <= Qabs x < pow2 (ilog2 (Qabs x) + 1) /\
  (ulp_exp x = (ilog2 (Qabs x) - 52)%Z \/ ulp_exp x = (-1074)%Z) /\
  (ilog2 (Qabs x) - 52 <= ulp_exp x)%Z /\ (-1074 <= ulp_exp x)%Z.
Proof.
  intros H. split; [apply ilog2_spec, H|]. unfold ulp_exp. lia.
Qed.

Theorem fl_mono (x y : Q) : x <= y -> fl x <= fl y.
Proof.
  intros L.
  destruct (Qlt_le_dec 0 x) as [Px|Nx].
  - (* both positive *)
    assert (Py : 0 < y) by lra.
    assert (Ax : Qabs x == x) by (apply Qabs_pos; lra).
    assert (Ay : Qabs y == y) by (apply Qabs_pos; lra).
    destruct (ulp_exp_spec x) as ([X1 X2] & Xk & Xl & Xm); [rewrite Ax; exact Px|].
    destruct (ulp_exp_spec y) as ([Y1 Y2] & Yk & Yl & Ym); [rewrite Ay; exact Py|].
    remember (ilog2 (Qabs x)) as ex. remember (ilog2 (Qabs y)) as ey.
    rewrite Ax in X1, X2. rewrite Ay in Y1, Y2.
    destruct (Z.lt_trichotomy (ulp_exp x) (ulp_exp y)) as [K|[K|K]].
    + assert (Ke : (ex + 1 <= ey)%Z) by lia.
      apply Qle_trans with (pow2 ey).
      * apply fl_le_pow2; [lia|].
        apply Qle_trans with (pow2 (ex + 1)); [lra|apply pow2_le, Ke].
      * apply fl_ge_pow2; [lia|exact Y1].
    + apply fl_same_grid; assumption.
    + exfalso.
      assert (Ke : (ey + 1 <= ex)%Z) by lia.
      pose proof (pow2_le _ _ Ke). lra.
  - destruct (Qlt_le_dec y 0) as [Ny|Py].
    + (* both negative *)
      assert (Ax : Qabs x == - x) by (apply Qabs_neg; lra).
      assert (Ay : Qabs y == - y) by (apply Qabs_neg; lra).
      destruct (ulp_exp_spec x) as ([X1 X2] & Xk & Xl & Xm); [rewrite Ax; lra|].
      destruct (ulp_exp_spec y) as ([Y1 Y2] & Yk & Yl & Ym); [rewrite Ay; lra|].
      remember (ilog2 (Qabs x)) as ex. remember (ilog2 (Qabs y)) as ey.
      rewrite Ax in X1, X2. rewrite Ay in Y1, Y2.
      destruct (Z.lt_trichotomy (ulp_exp x) (ulp_exp y)) as [K|[K|K]].
      * exfalso.
        assert (Ke : (ex + 1 <= ey)%Z) by lia.
        pose proof (pow2_le _ _ Ke). lra.
      * apply fl_same_grid; assumption.
      * assert (Ke : (ey + 1 <= ex)%Z) by lia.
        pose proof (pow2_le _ _ Ke) as P.
        apply Qle_trans with (- pow2 ex).
        -- apply fl_le_opp_pow2; [lia|lra].
        -- apply fl_ge_opp_pow2; [lia|lra].
    + apply Qle_trans with 0; [apply fl_nonpos, Nx|apply fl_nonneg, Py].
Qed.

Lemma fl_err (x : Q) : Qabs (fl x - x) <= pow2 (ulp_exp x) * (1 # 2).
Proof.
  set (p := pow2 (ulp_exp x)).
  assert (Pp : 0 < p) by apply pow2_pos.
  assert (E : fl x - x == (inject_Z (rne (x / p)) - x / p) * p).
  { rewrite fl_eq. fold p. field. lra. }
  rewrite E, Qabs_Qmult, (Qabs_pos p) by lra.
  rewrite (Qmult_comm p). apply Qmult_le_compat_r; [apply rne_err|lra].
Qed.

Theorem fl_err_bound (x : Q) (E : Z) :
  Qabs x < pow2 (E + 1) -> (-1074 <= E - 52)%Z ->
  Qabs (fl x - x) <= pow2 (E - 53).
Proof.
  intros B M.
  assert (H : pow2 (E - 53) == pow2 (E - 52) * (1 # 2)).
  { replace (E - 53)%Z with (E - 52 + -1)%Z by lia. rewrite pow2_plus. reflexivity. }
  destruct (Qlt_le_dec 0 (Qabs x)) as [P|Z0].
  - destruct (ulp_exp_spec x P) as ([X1 X2] & _).
    assert (I : (ilog2 (Qabs x) < E + 1)%Z).
    { apply pow2_lt_inv. apply Qle_lt_trans with (Qabs x); assumption. }
    assert (K : (ulp_exp x <= E - 52)%Z) by (unfold ulp_exp; lia).
    apply Qle_trans with (pow2 (ulp_exp x) * (1 # 2)); [apply fl_err|].
    rewrite H. apply Qmult_le_compat_r; [apply pow2_le, K|discriminate].
  - assert (X0 : x == 0).
    { pose proof (Qabs_nonneg x). assert (A : Qabs x == 0) by lra.
      revert A. apply Qabs_case; intros; lra. }
    assert (F0 : fl x == 0).
    { apply Qle_antisym; [apply fl_nonpos|apply fl_nonneg]; lra. }
    rewrite F0, X0. apply Qlt_le_weak. apply pow2_pos.
Qed.

(** Rounding respects equality of rationals. *)
Lemma fl_eqv (x y : Q) : x == y -> fl x == fl y.
Proof.
  intros E. apply Qle_antisym; apply fl_mono; rewrite E; apply Qle_refl.
Qed.

#[local] Arguments fl : simpl never.
#[local] Arguments round : simpl never.

(** A value between two binary64 numbers of moderate size rounds to a
    finite binary64 between them. *)
Lemma round_bounds (x lo hi : Q) :
  lo <= x <= hi -> fl lo == lo -> fl hi == hi ->
  -4096 <= lo -> hi <= 4096 ->
  round x = Fin (fl x) /\ lo <= fl x <= hi.
Proof.
  intros [L H] Flo Fhi Blo Bhi.
  assert (B : lo <= fl x <= hi).
  { split; [rewrite <- Flo|rewrite <- Fhi]; apply fl_mono; assumption. }
  split; [|exact B].
  unfold round. destruct (Qle_bool (pow2 1024) (Qabs (fl x))) eqn:E;
    [|reflexivity].
  exfalso. apply Qle_bool_iff in E.
  assert (A : Qabs (fl x) <= 4096) by (apply Qabs_Qle_condition; lra).
  assert (P : 4096 < pow2 1024) by (vm_compute; reflexivity).
  lra.
Qed.

Lemma fl_0 : fl 0 == 0.
Proof. vm_compute. reflexivity. Qed.

Lemma fl_1 : fl 1 == 1.
Proof. vm_compute. reflexivity. Qed.

(** One segment, evaluated: the operations stay finite and the value
    stays between the two ends of the segment. *)
Lemma seg_eval (s xj yj x : Q) :
  0 <= s -> 0 <= yj -> yj + s <= 4096 ->
  fl s == s -> fl yj == yj -> fl (yj + s) == yj + s ->
  0 <= x - xj <= 1 ->
  fadd (fmul (Fin s) (fsub (Fin x) (Fin xj))) (Fin yj) = Fin (seg s xj yj x)
  /\ yj <= seg s xj yj x <= yj + s.
Proof.
  intros Hs Hy Hys Fs Fy Fys Hx.
  destruct (round_bounds (x - xj) 0 1 Hx fl_0 fl_1) as [R1 T]; [lra|lra|].
  assert (P : 0 <= s * fl (x - xj) <= s).
  { split; [apply Qmult_le_0_compat; lra|].
    rewrite <- (Qmult_1_r s) at 2. rewrite !(Qmult_comm s).
    apply Qmult_le_compat_r; lra. }
  destruct (round_bounds (s * fl (x - xj)) 0 s P fl_0 Fs) as [R2 T2];
    [lra|lra|].
  assert (S : yj <= fl (s * fl (x - xj)) + yj <= yj + s) by lra.
  destruct (round_bounds _ yj (yj + s) S Fy Fys) as [R3 T3]; [lra|lra|].
  unfold seg. cbn [fsub]. rewrite R1. cbn [fmul]. rewrite R2. cbn [fadd].
  rewrite R3. split; [reflexivity|exact T3].
Qed.

Lemma seg_mono (s xj yj x1 x2 : Q) :
  0 <= s -> x1 <= x2 -> seg s xj yj x1 <= seg s xj yj x2.
Proof.
  intros Hs L. unfold seg. apply fl_mono. apply Qplus_le_compat; [|apply Qle_refl].
  apply fl_mono. rewrite !(Qmult_comm s). apply Qmult_le_compat_r; [|exact Hs].
  apply fl_mono. lra.
Qed.

Lemma seg_start (s xj yj x : Q) :
  fl yj == yj -> x == xj -> seg s xj yj x == yj.
Proof.
  intros Fy E. unfold seg.
  assert (T : fl (x - xj) == 0).
  { rewrite <- fl_0. apply fl_eqv. rewrite E. ring. }
  assert (P : fl (s * fl (x - xj)) == 0).
  { rewrite <- fl_0. apply fl_eqv. rewrite T. ring. }
  rewrite <- Fy at 2. apply fl_eqv. rewrite P. ring.
Qed.

(** How the three rounding errors of a segment add up. *)
Lemma err_compose (s r p t u yj b1 b2 b3 : Q) :
  0 <= s ->
  Qabs (t - u) <= b1 -> Qabs (p - s * t) <= b2 ->
  Qabs (r - (p + yj)) <= b3 ->
  Qabs (r - (yj + s * u)) <= b3 + b2 + s * b1.
Proof.
  intros Hs E1 E2 E3.
  apply Qabs_Qle_condition in E1, E2, E3. apply Qabs_Qle_condition.
  assert (M1 : s * (t - u) <= s * b1).
  { rewrite !(Qmult_comm s). apply Qmult_le_compat_r; lra. }
  assert (M2 : - (s * b1) <= s * (t - u)).
  { assert (N : - (s * b1) == s * - b1) by ring. rewrite N.
    rewrite !(Qmult_comm s). apply Qmult_le_compat_r; lra. }
  assert (D : r - (yj + s * u)
              == (r - (p + yj)) + (p - s * t) + s * (t - u)) by ring.
  rewrite D.
  remember (s * (t - u)) as m. remember (s * b1) as sb.
  lra.
Qed.

(** The rounding error of one segment. *)
Lemma seg_err (s xj yj x : Q) :
  0 <= s <= 1000 -> 0 <= yj -> yj + s <= 4000 ->
  fl s == s -> fl yj == yj -> fl (yj + s) == yj + s ->
  0 <= x - xj < 1 ->
  Qabs (seg s xj yj x - (yj + s * (x - xj)))
  <= pow2 (-42) + pow2 (-44) + s * pow2 (-54).
Proof.
  intros Hs Hy Hys Fs Fy Fys Hx.
  assert (Hx' : 0 <= x - xj <= 1) by lra.
  destruct (round_bounds (x - xj) 0 1 Hx' fl_0 fl_1) as [_ T]; [lra|lra|].
  assert (P : 0 <= s * fl (x - xj) <= s).
  { split; [apply Qmult_le_0_compat; lra|].
    rewrite <- (Qmult_1_r s) at 2. rewrite !(Qmult_comm s).
    apply Qmult_le_compat_r; lra. }
  destruct (round_bounds (s * fl (x - xj)) 0 s P fl_0 Fs) as [_ T2];
    [lra|lra|].
  apply (err_compose s (seg s xj yj x) (fl (s * fl (x - xj)))
           (fl (x - xj)) (x - xj) yj); [lra| | |].
  - apply (fl_err_bound (x - xj) (-1)); [|lia].
    change (pow2 (-1 + 1)) with 1. apply Qabs_Qlt_condition. lra.
  - apply (fl_err_bound (s * fl (x - xj)) 9); [|lia].
    assert (V : pow2 (9 + 1) == 1024) by (vm_compute; reflexivity).
    rewrite V. apply Qabs_Qlt_condition. lra.
  - unfold seg. apply (fl_err_bound (fl (s * fl (x - xj)) + yj) 11); [|lia].
    assert (V : pow2 (11 + 1) == 4096) by (vm_compute; reflexivity).
    rewrite V. apply Qabs_Qlt_condition. lra.
Qed.

(** ** The interpolation over the table of [class Shooter] *)

Lemma to_array_ranges :
  Numpy.to_array (ranges Shooter) = Ok [7; 8; 9; 10; 11].
Proof. vm_compute. reflexivity. Qed.

Lemma to_array_centre_rpms :
  Numpy.to_array (centre_rpms Shooter) = Ok [880; 1120; 1500; 2150; 2400].
Proof. vm_compute. reflexivity. Qed.

(** The four segments of the table of [class Shooter]. *)
Lemma segments_of_Shooter (i : nat) (p0 p1 : Q * Q) :
  nth_error (breakpoints Shooter) i = Some p0 ->
  nth_error (breakpoints Shooter) (S i) = Some p1 ->
  (p0 = (inject_Z 7, inject_Z 880) /\ p1 = (inject_Z 8, inject_Z 1120)) \/
  (p0 = (inject_Z 8, inject_Z 1120) /\ p1 = (inject_Z 9, inject_Z 1500)) \/
  (p0 = (inject_Z 9, inject_Z 1500) /\ p1 = (inject_Z 10, inject_Z 2150)) \/
  (p0 = (inject_Z 10, inject_Z 2150) /\ p1 = (inject_Z 11, inject_Z 2400)).
Proof.
  destruct i as [|[|[|[|[|i]]]]]; cbn; intros E0 E1; try discriminate;
    injection E0 as <-; injection E1 as <-; tauto.
Qed.

(** Over the table of [class Shooter] the interpolation is a function:
    where two segments meet they give the same value. *)
Lemma linear_interpolate_unique (d y y' : Q) :
  linear_interpolate (breakpoints Shooter) d y ->
  linear_interpolate (breakpoints Shooter) d y' ->
  y == y'.
Proof.
  intros (i & p0 & p1 & E0 & E1 & [B V]) (j & r0 & r1 & F0 & F1 & [B' V']).
  destruct (segments_of_Shooter i p0 p1 E0 E1)
    as [[-> ->]|[[-> ->]|[[-> ->]|[-> ->]]]];
    destruct (segments_of_Shooter j r0 r1 F0 F1)
      as [[-> ->]|[[-> ->]|[[-> ->]|[-> ->]]]].
  all: cbn [fst snd] in B, V, B', V'; unfold inject_Z in *.
  all: rewrite V, V'; eval_inverses; lra.
Qed.

(** Closes the side conditions on the constants of a segment. *)
Ltac seg_facts :=
  first [lra | match goal with |- fl _ == _ => vm_compute; reflexivity end].

Lemma fl_table_range (q : Q) :
  7 <= q <= 11 -> round q = Fin (fl q) /\ 7 <= fl q <= 11.
Proof. intros H. apply round_bounds; [exact H|seg_facts..]. Qed.

(** The curve, segment by segment. *)
Lemma curve_cases (q : Q) :
  7 <= q <= 11 ->
  (fl q < 8 /\ curve q = seg 240 7 880 (fl q) /\ 880 <= curve q <= 1120) \/
  (8 <= fl q < 9 /\ curve q = seg 380 8 1120 (fl q)
   /\ 1120 <= curve q <= 1500) \/
  (9 <= fl q < 10 /\ curve q = seg 650 9 1500 (fl q)
   /\ 1500 <= curve q <= 2150) \/
  (10 <= fl q < 11 /\ curve q = seg 250 10 2150 (fl q)
   /\ 2150 <= curve q <= 2400) \/
  (11 <= fl q /\ curve q = 2400).
Proof.
  intros H. destruct (fl_table_range q H) as [_ [A7 A11]].
  unfold curve. cbv zeta.
  destruct (Qlt_bool (fl q) 8) eqn:E8; order_facts.
  { left. split; [exact E8|]. split; [reflexivity|].
    assert (B : 880 <= seg 240 7 880 (fl q) <= 880 + 240).
    { apply seg_eval; seg_facts. }
    lra. }
  destruct (Qlt_bool (fl q) 9) eqn:E9; order_facts.
  { right. left. split; [lra|]. split; [reflexivity|].
    assert (B : 1120 <= seg 380 8 1120 (fl q) <= 1120 + 380).
    { apply seg_eval; seg_facts. }
    lra. }
  destruct (Qlt_bool (fl q) 10) eqn:E10; order_facts.
  { right. right. left. split; [lra|]. split; [reflexivity|].
    assert (B : 1500 <= seg 650 9 1500 (fl q) <= 1500 + 650).
    { apply seg_eval; seg_facts. }
    lra. }
  destruct (Qlt_bool (fl q) 11) eqn:E11; order_facts.
  { right. right. right. left. split; [lra|]. split; [reflexivity|].
    assert (B : 2150 <= seg 250 10 2150 (fl q) <= 2150 + 250).
    { apply seg_eval; seg_facts. }
    lra. }
  right. right. right. right. split; [exact E11|reflexivity].
Qed.

Lemma curve_bounds (q : Q) : 7 <= q <= 11 -> 880 <= curve q <= 2400.
Proof.
  intros H.
  destruct (curve_cases q H)
    as [(_ & _ & B)|[(_ & _ & B)|[(_ & _ & B)|[(_ & _ & B)|(_ & E)]]]];
    try rewrite E; lra.
Qed.

Lemma curve_mono (q1 q2 : Q) :
  7 <= q1 <= 11 -> 7 <= q2 <= 11 -> q1 <= q2 -> curve q1 <= curve q2.
Proof.
  intros H1 H2 L.
  pose proof (fl_mono q1 q2 L) as A.
  destruct (curve_cases q1 H1)
    as [(C1 & E1 & B1)|[(C1 & E1 & B1)|[(C1 & E1 & B1)|[(C1 & E1 & B1)
        |(C1 & E1)]]]];
    destruct (curve_cases q2 H2)
      as [(C2 & E2 & B2)|[(C2 & E2 & B2)|[(C2 & E2 & B2)|[(C2 & E2 & B2)
          |(C2 & E2)]]]];
    try lra;
    try (rewrite E1, E2; apply seg_mono; [lra|exact A]);
    try (rewrite E2; lra);
    try (rewrite E1, E2; lra).
Qed.

(** For a binary64 distance the curve is within [2^-41] of the exact
    piecewise-linear interpolant. *)
Lemma curve_err (q : Q) :
  7 <= q <= 11 -> fl q == q ->
  exists e,
    linear_interpolate (breakpoints Shooter) q e /\
    Qabs (curve q - e) <= pow2 (-41).
Proof.
  intros H F.
  assert (P41 : pow2 (-41) == 1 # 2199023255552) by (vm_compute; reflexivity).
  assert (P42 : pow2 (-42) == 1 # 4398046511104) by (vm_compute; reflexivity).
  assert (P44 : pow2 (-44) == 1 # 17592186044416) by (vm_compute; reflexivity).
  assert (P54 : pow2 (-54) == 1 # 18014398509481984)
    by (vm_compute; reflexivity).
  destruct (fl_table_range q H) as [_ [A7 A11]].
  destruct (curve_cases q H)
    as [(C & E & _)|[(C & E & _)|[(C & E & _)|[(C & E & _)|(C & E)]]]].
  - exists (880 + 240 * (q - 7)). split.
    + exists 0%nat, (7, 880), (8, 1120).
      split; [reflexivity|]. split; [reflexivity|].
      unfold on_segment; cbn [fst snd]. split; [lra|]. eval_inverses; lra.
    + assert (S : Qabs (seg 240 7 880 (fl q) - (880 + 240 * (fl q - 7)))
                  <= pow2 (-42) + pow2 (-44) + 240 * pow2 (-54)).
      { apply seg_err; seg_facts. }
      rewrite E, P41. rewrite P42, P44, P54 in S.
      apply Qabs_Qle_condition in S. apply Qabs_Qle_condition.
      remember (seg 240 7 880 (fl q)) as r. lra.
  - exists (1120 + 380 * (q - 8)). split.
    + exists 1%nat, (8, 1120), (9, 1500).
      split; [reflexivity|]. split; [reflexivity|].
      unfold on_segment; cbn [fst snd]. split; [lra|]. eval_inverses; lra.
    + assert (S : Qabs (seg 380 8 1120 (fl q) - (1120 + 380 * (fl q - 8)))
                  <= pow2 (-42) + pow2 (-44) + 380 * pow2 (-54)).
      { apply seg_err; seg_facts. }
      rewrite E, P41. rewrite P42, P44, P54 in S.
      apply Qabs_Qle_condition in S. apply Qabs_Qle_condition.
      remember (seg 380 8 1120 (fl q)) as r. lra.
  - exists (1500 + 650 * (q - 9)). split.
    + exists 2%nat, (9, 1500), (10, 2150).
      split; [reflexivity|]. split; [reflexivity|].
      unfold on_segment; cbn [fst snd]. split; [lra|]. eval_inverses; lra.
    + assert (S : Qabs (seg 650 9 1500 (fl q) - (1500 + 650 * (fl q - 9)))
                  <= pow2 (-42) + pow2 (-44) + 650 * pow2 (-54)).
      { apply seg_err; seg_facts. }
      rewrite E, P41. rewrite P42, P44, P54 in S.
      apply Qabs_Qle_condition in S. apply Qabs_Qle_condition.
      remember (seg 650 9 1500 (fl q)) as r. lra.
  - exists (2150 + 250 * (q - 10)). split.
    + exists 3%nat, (10, 2150), (11, 2400).
      split; [reflexivity|]. split; [reflexivity|].
      unfold on_segment; cbn [fst snd]. split; [lra|]. eval_inverses; lra.
    + assert (S : Qabs (seg 250 10 2150 (fl q) - (2150 + 250 * (fl q - 10)))
                  <= pow2 (-42) + pow2 (-44) + 250 * pow2 (-54)).
      { apply seg_err; seg_facts. }
      rewrite E, P41. rewrite P42, P44, P54 in S.
      apply Qabs_Qle_condition in S. apply Qabs_Qle_condition.
      remember (seg 250 10 2150 (fl q)) as r. lra.
  - exists 2400. split.
    + exists 3%nat, (10, 2150), (11, 2400).
      split; [reflexivity|]. split; [reflexivity|].
      unfold on_segment; cbn [fst snd]. split; [lra|]. eval_inverses; lra.
    + rewrite E, P41. apply Qabs_Qle_condition. lra.
Qed.

Lemma slope_7_8 :
  fdiv (fsub (Fin 1120) (Fin 880)) (fsub (Fin 8) (Fin 7)) = Fin 240.
Proof. vm_compute. reflexivity. Qed.

Lemma slope_8_9 :
  fdiv (fsub (Fin 1500) (Fin 1120)) (fsub (Fin 9) (Fin 8)) = Fin 380.
Proof. vm_compute. reflexivity. Qed.

Lemma slope_9_10 :
  fdiv (fsub (Fin 2150) (Fin 1500)) (fsub (Fin 10) (Fin 9)) = Fin 650.
Proof. vm_compute. reflexivity. Qed.

Lemma slope_10_11 :
  fdiv (fsub (Fin 2400) (Fin 2150)) (fsub (Fin 11) (Fin 10)) = Fin 250.
Proof. vm_compute. reflexivity. Qed.

(** [interp] over the table of [class Shooter], for a distance within
    the table: a finite value, the one [curve] describes. *)
Lemma interp_Shooter (q : Q) :
  7 <= q <= 11 ->
  exists y,
    Numpy.interp (Fin q) (ranges Shooter) (centre_rpms Shooter) = Ok (Fin y)
    /\ y == curve q
    /\ 880 <= y <= 2400.
Proof.
  intros H. destruct (fl_table_range q H) as [R [A7 A11]].
  pose proof (curve_bounds q H) as CB.
  assert (G : exists y,
    Numpy.interp (Fin q) (ranges Shooter) (centre_rpms Shooter) = Ok (Fin y)
    /\ y == curve q).
  2: { destruct G as (y & Gy & Ge). exists y.
       split; [exact Gy|]. split; [exact Ge|]. rewrite Ge. exact CB. }
  unfold Numpy.interp. rewrite to_array_centre_rpms, to_array_ranges.
  unfold Numpy.as_float64. rewrite R.
  cbn -[fadd fsub fmul fdiv fl round Qle_bool Qlt_bool Qeq_bool
        Numpy.interp_inner].
  destruct (Qlt_bool 11 (fl q)) eqn:E11; [exfalso; order_facts; lra|].
  destruct (Qlt_bool (fl q) 7) eqn:E7; [exfalso; order_facts; lra|].
  unfold Numpy.interp_inner. cbn [Numpy.search].
  destruct (curve_cases q H)
    as [(C & E & _)|[(C & E & _)|[(C & E & _)|[(C & E & _)|(C & E)]]]].
  - assert (L8 : Qle_bool 8 (fl q) = false) by (apply Qle_bool_false; lra).
    rewrite L8. cbn [length Nat.eqb Nat.sub nth]. rewrite slope_7_8.
    destruct (Qeq_bool 7 (fl q)) eqn:Q.
    + order_facts. eexists. split; [reflexivity|].
      rewrite E. symmetry. apply seg_start; [seg_facts|]. symmetry. exact Q.
    + destruct (seg_eval 240 7 880 (fl q)) as [V _]; try seg_facts.
      rewrite V. cbn [is_nan]. eexists. split; [reflexivity|].
      rewrite E. reflexivity.
  - assert (L8 : Qle_bool 8 (fl q) = true) by (apply Qle_bool_iff; lra).
    assert (L9 : Qle_bool 9 (fl q) = false) by (apply Qle_bool_false; lra).
    rewrite L8, L9. cbn [length Nat.eqb Nat.sub nth]. rewrite slope_8_9.
    destruct (Qeq_bool 8 (fl q)) eqn:Q.
    + order_facts. eexists. split; [reflexivity|].
      rewrite E. symmetry. apply seg_start; [seg_facts|]. symmetry. exact Q.
    + destruct (seg_eval 380 8 1120 (fl q)) as [V _]; try seg_facts.
      rewrite V. cbn [is_nan]. eexists. split; [reflexivity|].
      rewrite E. reflexivity.
  - assert (L8 : Qle_bool 8 (fl q) = true) by (apply Qle_bool_iff; lra).
    assert (L9 : Qle_bool 9 (fl q) = true) by (apply Qle_bool_iff; lra).
    assert (L10 : Qle_bool 10 (fl q) = false) by (apply Qle_bool_false; lra).
    rewrite L8, L9, L10. cbn [length Nat.eqb Nat.sub nth]. rewrite slope_9_10.
    destruct (Qeq_bool 9 (fl q)) eqn:Q.
    + order_facts. eexists. split; [reflexivity|].
      rewrite E. symmetry. apply seg_start; [seg_facts|]. symmetry. exact Q.
    + destruct (seg_eval 650 9 1500 (fl q)) as [V _]; try seg_facts.
      rewrite V. cbn [is_nan]. eexists. split; [reflexivity|].
      rewrite E. reflexivity.
  - assert (L8 : Qle_bool 8 (fl q) = true) by (apply Qle_bool_iff; lra).
    assert (L9 : Qle_bool 9 (fl q) = true) by (apply Qle_bool_iff; lra).
    assert (L10 : Qle_bool 10 (fl q) = true) by (apply Qle_bool_iff; lra).
    assert (L11 : Qle_bool 11 (fl q) = false) by (apply Qle_bool_false; lra).
    rewrite L8, L9, L10, L11. cbn [length Nat.eqb Nat.sub nth].
    rewrite slope_10_11.
    destruct (Qeq_bool 10 (fl q)) eqn:Q.
    + order_facts. eexists. split; [reflexivity|].
      rewrite E. symmetry. apply seg_start; [seg_facts|]. symmetry. exact Q.
    + destruct (seg_eval 250 10 2150 (fl q)) as [V _]; try seg_facts.
      rewrite V. cbn [is_nan]. eexists. split; [reflexivity|].
      rewrite E. reflexivity.
  - assert (L8 : Qle_bool 8 (fl q) = true) by (apply Qle_bool_iff; lra).
    assert (L9 : Qle_bool 9 (fl q) = true) by (apply Qle_bool_iff; lra).
    assert (L10 : Qle_bool 10 (fl q) = true) by (apply Qle_bool_iff; lra).
    assert (L11 : Qle_bool 11 (fl q) = true) by (apply Qle_bool_iff; lra).
    rewrite L8, L9, L10, L11. cbn [length Nat.eqb Nat.sub nth].
    eexists. split; [reflexivity|]. rewrite E. reflexivity.
Qed.

(** ** [set_range] on an instance of [class Shooter] *)

Lemma set_range_unfold (d : num) (s : t) :
  cls s = Shooter ->
  set_range d s =
  match Numpy.interp (clamped d) (ranges Shooter) (centre_rpms Shooter) with
  | Ok y =>
    (Ok tt,
     set_outer_rpm (of_Z 5000)
       (set_centre_rpm y (set_in_range (in_table d) s)), [])
  | Raise e => (Raise e, set_in_range (in_table d) s, [])
  end.
Proof.
  destruct s as [c o r i b v]. cbn [cls]. intros ->.
  unfold set_range, clamp_range, clamped, in_table, bind, attr, lift, assign, ret.
  cbn -[Numpy.interp le py_min py_max].
  destruct (le (of_Z 7) d); cbn -[Numpy.interp le py_min py_max].
  - destruct (le d (of_Z 11)); cbn -[Numpy.interp le py_min py_max];
      destruct (Numpy.interp _ _ _); reflexivity.
  - destruct (Numpy.interp _ _ _); reflexivity.
Qed.

Lemma clamped_in_table (d : num) :
  exists q, clamped d = Fin q /\ 7 <= q <= 11.
Proof.
  unfold clamped, in_table, py_min, py_max, gt.
  destruct d as [q| | |]; cbn -[Qle_bool Qlt_bool inject_Z].
  - destruct (Qle_bool (inject_Z 7) q) eqn:E7;
      [destruct (Qle_bool q (inject_Z 11)) eqn:E11|];
      cbn -[Qle_bool Qlt_bool inject_Z].
    + exists q. order_facts. unfold inject_Z in *. split; [reflexivity|lra].
    + assert (L : Qlt_bool q (inject_Z 7) = false).
      { apply Qlt_bool_false. order_facts. exact E7. }
      rewrite L. cbn -[Qle_bool Qlt_bool inject_Z].
      assert (G : Qlt_bool q (inject_Z 11) = false).
      { apply Qlt_bool_false. order_facts. apply Qlt_le_weak. exact E11. }
      rewrite G. exists (inject_Z 11). unfold inject_Z. split; [reflexivity|lra].
    + assert (L : Qlt_bool q (inject_Z 7) = true).
      { apply Qlt_bool_true. order_facts. exact E7. }
      rewrite L. cbn.
      exists (inject_Z 7). unfold inject_Z. split; [reflexivity|lra].
  - exists (inject_Z 11). unfold inject_Z. split; [reflexivity|lra].
  - exists (inject_Z 7). unfold inject_Z. split; [reflexivity|lra].
  - exists (inject_Z 11). unfold inject_Z. split; [reflexivity|lra].
Qed.

(** [set_range] never raises on a [Shooter]; it sets the flag to
    [in_table d], the centre target to the interpolation at the clamped
    distance and the outer target to 5000, and sends no command. *)
Lemma set_range_Shooter (d : num) (s : t) :
  cls s = Shooter ->
  exists q y,
    clamped d = Fin q /\ 7 <= q <= 11 /\
    Numpy.interp (Fin q) (ranges Shooter) (centre_rpms Shooter) = Ok (Fin y) /\
    y == curve q /\
    880 <= y <= 2400 /\
    set_range d s =
    (Ok tt,
     set_outer_rpm (of_Z 5000)
       (set_centre_rpm (Fin y) (set_in_range (in_table d) s)), []).
Proof.
  intros Hc.
  destruct (clamped_in_table d) as (q & Hq & Hb).
  destruct (interp_Shooter q Hb) as (y & Hy & Hl & Hyb).
  exists q, y. repeat split; try tauto.
  rewrite (set_range_unfold d s Hc), Hq, Hy. reflexivity.
Qed.

Lemma in_table_true (d : num) :
  le (of_Z 7) d = true -> le d (of_Z 11) = true ->
  in_table d = true /\ clamped d = d /\ exists q, d = Fin q /\ 7 <= q <= 11.
Proof.
  intros H7 H11. unfold clamped, in_table. rewrite H7, H11. cbn [andb].
  repeat split.
  destruct d as [q| | |]; try discriminate.
  exists q. cbn -[Qle_bool] in H7, H11. order_facts. unfold inject_Z in *.
  split; [reflexivity|lra].
Qed.

Lemma clamped_below (d : num) :
  lt d (of_Z 7) = true -> in_table d = false /\ clamped d = of_Z 7.
Proof.
  unfold clamped, in_table, py_min, py_max, gt.
  destruct d as [q| | |]; try discriminate; intros H.
  - cbn -[Qle_bool inject_Z] in *. unfold Qlt_bool in *.
    apply negb_true_iff in H. rewrite H. cbn. split; reflexivity.
  - split; reflexivity.
Qed.

Lemma clamped_above (d : num) :
  gt d (of_Z 11) = true -> in_table d = false /\ clamped d = of_Z 11.
Proof.
  unfold clamped, in_table, py_min, py_max, gt.
  destruct d as [q| | |]; try discriminate; intros H.
  - cbn -[Qle_bool inject_Z] in *. unfold Qlt_bool in *.
    apply negb_true_iff in H. rewrite H, andb_false_r.
    assert (L : Qle_bool (inject_Z 7) q = true).
    { apply Qle_bool_iff. order_facts. unfold inject_Z in *. lra. }
    rewrite L. cbn -[Qle_bool inject_Z].
    assert (G : Qle_bool (inject_Z 11) q = true).
    { apply Qle_bool_iff. order_facts. unfold inject_Z in *. lra. }
    unfold Qlt_bool. rewrite G. cbn. split; reflexivity.
  - split; reflexivity.
Qed.

(** ** Laws of [Act], pointwise *)

Lemma bind_ret_l {A B} (a : A) (f : A -> Act B) (s : t) :
  bind (ret a) f s = f a s.
Proof.
  unfold bind, ret. destruct (f a s) as [[r s2] l2]. reflexivity.
Qed.

Lemma bind_assoc {A B C} (m : Act A) (f : A -> Act B) (g : B -> Act C)
      (s : t) :
  bind (bind m f) g s = bind m (fun a => bind (f a) g) s.
Proof.
  unfold bind. destruct (m s) as [[[a|e] s1] l1]; [|reflexivity].
  destruct (f a s1) as [[[b|e] s2] l2]; [|reflexivity].
  destruct (g b s2) as [[r s3] l3]. rewrite app_assoc. reflexivity.
Qed.

Lemma bind_ext {A B} (m : Act A) (f g : A -> Act B) (s : t) :
  (forall a s', f a s' = g a s') -> bind m f s = bind m g s.
Proof.
  intros H. unfold bind. destruct (m s) as [[[a|e] s1] l1]; [|reflexivity].
  rewrite H. reflexivity.
Qed.

Lemma bind_Ok {A B} (m : Act A) (f : A -> Act B) (s s1 : t) (a : A)
      (l1 : list Cmd) :
  m s = (Ok a, s1, l1) ->
  bind m f s = (result_of (f a s1), state_of (f a s1), l1 ++ log_of (f a s1)).
Proof.
  intros H. unfold bind. rewrite H.
  destruct (f a s1) as [[r s2] l2]. reflexivity.
Qed.

Lemma run_app (cs cs' : list Call) (s : t) :
  run (cs ++ cs') s = bind (run cs) (fun _ => run cs') s.
Proof.
  revert s. induction cs as [|c cs IH]; intros s.
  - cbn [app run]. rewrite bind_ret_l. reflexivity.
  - cbn [app run]. rewrite bind_assoc. apply bind_ext. intros _ s'. apply IH.
Qed.

(** ** Effects of the other methods *)

Lemma fire_effect (s : t) : fire s = (Ok tt, set_inject true s, []).
Proof. reflexivity. Qed.

Lemma on_enable_effect (s : t) :
  on_enable s = (Ok tt, s, [stopMotor centre_motor; stopMotor outer_motor]).
Proof. reflexivity. Qed.

Lemma execute_effect (s : t) :
  execute s =
  (Ok tt,
   (if inject s then set_inject false s else s),
   [setReference centre_motor (centre_rpm s) kVelocity;
    setReference outer_motor (outer_rpm s) kVelocity]
   ++ (if inject s then [startPulse] else [])).
Proof.
  unfold execute, bind, attr, send, assign, ret.
  destruct (inject s); reflexivity.
Qed.

(** What every call on a [Shooter] does to the attributes other than
    the targets: it returns, keeps the class and the tolerance, sets the
    latch on [fire], clears it on [execute], and pulses the solenoid
    only on an [execute] that finds the latch set. *)
Lemma call_Shooter (c : Call) (s : t) :
  cls s = Shooter ->
  exists s' l,
    call c s = (Ok tt, s', l) /\ cls s' = Shooter /\
    velocity_tolerance s' = velocity_tolerance s /\
    inject s' = (if is_Execute c then false else inject s || is_Fire c) /\
    count is_startPulse l =
      (if is_Execute c && inject s then 1 else 0)%nat.
Proof.
  intros Hc. destruct c as [d| | |]; cbn [call is_Execute is_Fire andb].
  - destruct (set_range_Shooter d s Hc) as (q & y & _ & _ & _ & _ & _ & E).
    rewrite E. do 2 eexists. split; [reflexivity|].
    cbn. rewrite orb_false_r. auto.
  - rewrite fire_effect. do 2 eexists. split; [reflexivity|].
    cbn. rewrite orb_true_r. auto.
  - rewrite execute_effect. do 2 eexists. split; [reflexivity|].
    destruct (inject s) eqn:E; cbn; auto.
  - rewrite on_enable_effect. do 2 eexists. split; [reflexivity|].
    cbn. rewrite orb_false_r. auto.
Qed.

Lemma run_cons (c : Call) (cs : list Call) (s s' : t) (l : list Cmd) :
  call c s = (Ok tt, s', l) ->
  run (c :: cs) s =
  (result_of (run cs s'), state_of (run cs s'), l ++ log_of (run cs s')).
Proof.
  intros H. cbn [run].
  exact (bind_Ok (call c) (fun _ => run cs) s s' tt l H).
Qed.

Lemma count_app (p : Cmd -> bool) (l l' : list Cmd) :
  count p (l ++ l') = (count p l + count p l')%nat.
Proof. unfold count. rewrite filter_app, length_app. reflexivity. Qed.

(** A sequence of calls on a [Shooter] runs to its end and keeps the
    class and the tolerance. *)
Lemma run_Shooter (cs : list Call) (s : t) :
  cls s = Shooter ->
  result_of (run cs s) = Ok tt /\ cls (state_of (run cs s)) = Shooter /\
  velocity_tolerance (state_of (run cs s)) = velocity_tolerance s.
Proof.
  revert s. induction cs as [|c cs IH]; intros s Hc.
  - cbn. auto.
  - destruct (call_Shooter c s Hc) as (s' & l & E & Hc' & Hv & _).
    rewrite (run_cons _ _ _ _ _ E). cbn [result_of state_of fst snd].
    destruct (IH s' Hc') as (R & C & V). rewrite <- Hv. auto.
Qed.

Lemma reachable_Shooter (s : t) :
  reachable s -> cls s = Shooter /\ velocity_tolerance s = of_Z 50.
Proof.
  intros (cs & _ & <-).
  destruct (run_Shooter cs fresh eq_refl) as (_ & C & V). auto.
Qed.

(** Between two [execute] calls the solenoid is left alone and the latch
    records whether [fire] was called. *)
Lemma run_latch (cs : list Call) (s : t) :
  cls s = Shooter -> existsb is_Execute cs = false ->
  inject (state_of (run cs s)) = inject s || existsb is_Fire cs /\
  count is_startPulse (log_of (run cs s)) = 0%nat.
Proof.
  revert s. induction cs as [|c cs IH]; intros s Hc Hx.
  - cbn. rewrite orb_false_r. auto.
  - cbn [existsb] in Hx. apply orb_false_iff in Hx. destruct Hx as [Hx1 Hx2].
    destruct (call_Shooter c s Hc) as (s' & l & E & Hc' & _ & Hi & Hn).
    rewrite (run_cons _ _ _ _ _ E). cbn [result_of state_of log_of fst snd].
    destruct (IH s' Hc' Hx2) as [I N].
    rewrite count_app, N, Hn, I, Hi, Hx1. cbn [existsb andb].
    rewrite orb_assoc. auto.
Qed.

(** ** The centre target stays within the table *)

Lemma call_centre_rpm (c : Call) (s : t) :
  cls s = Shooter ->
  if is_SetRange c then bounded (state_of (call c s))
  else centre_rpm (state_of (call c s)) = centre_rpm s.
Proof.
  intros Hc. destruct c as [d| | |]; cbn [call is_SetRange].
  - destruct (set_range_Shooter d s Hc) as (q & y & _ & _ & _ & _ & B & E).
    rewrite E. exists y. split; [reflexivity|exact B].
  - reflexivity.
  - rewrite execute_effect. cbn. destruct (inject s); reflexivity.
  - reflexivity.
Qed.

Lemma run_bounded (cs : list Call) (s : t) :
  cls s = Shooter ->
  bounded s \/ existsb is_SetRange cs = true ->
  bounded (state_of (run cs s)).
Proof.
  revert s. induction cs as [|c cs IH]; intros s Hc H.
  - destruct H as [H|H]; [exact H|discriminate].
  - destruct (call_Shooter c s Hc) as (s' & l & E & Hc' & _).
    rewrite (run_cons _ _ _ _ _ E). cbn [state_of fst snd].
    apply (IH s' Hc').
    pose proof (call_centre_rpm c s Hc) as P. rewrite E in P.
    cbn [state_of fst snd] in P.
    destruct (is_SetRange c) eqn:S.
    + left. exact P.
    + cbn [existsb] in H. rewrite S in H. cbn [orb] in H.
      destruct H as [(y & Hy & B)|H]; [left|right; exact H].
      exists y. rewrite P. auto.
Qed.

(** ** The claims about [set_range] *)

(** C1, as the code has it.  For every binary64 distance d with
    7 <= d <= 11 (the first and last entries of [ranges]),
    [set_range(d)] on a Shooter returns, leaves [in_range] true, and
    sets [centre_rpm] to what [interp] computes in binary64 on the
    segment that brackets d, [fl(fl(slope * fl(d - xp[j])) + fp[j])]:
    a value within [2^-41] of the piecewise-linear interpolant of d over
    the breakpoints (7,880), (8,1120), (9,1500), (10,2150), (11,2400),
    which is unique.  At the breakpoints 7, 11 and 9 the target is
    exactly 880, 2400 and 1500. *)
Theorem set_range_within_table (d : num) (s : t)
    (Hs : cls s = Shooter)
    (Hf : is_float64 d)
    (Hlo : le (of_Z 7) d = true) (Hhi : le d (of_Z 11) = true) :
  result_of (set_range d s) = Ok tt /\
  is_in_range (state_of (set_range d s)) = true /\
  (exists q y e,
      d = Fin q /\ centre_rpm (state_of (set_range d s)) = Fin y /\
      y == curve q /\
      linear_interpolate (breakpoints Shooter) q e /\
      (forall e', linear_interpolate (breakpoints Shooter) q e' -> e' == e) /\
      Qabs (y - e) <= pow2 (-41)) /\
  centre_rpm (state_of (set_range (of_Z 7) s)) = of_Z 880 /\
  centre_rpm (state_of (set_range (of_Z 11) s)) = of_Z 2400 /\
  centre_rpm (state_of (set_range (of_Z 9) s)) = of_Z 1500.
Proof.
  destruct (in_table_true d Hlo Hhi) as (T & C & q0 & -> & B).
  destruct (set_range_Shooter (Fin q0) s Hs) as (q & y & Q & _ & _ & L & _ & E).
  rewrite C in Q. injection Q as <-.
  destruct (curve_err q0 B Hf) as (e & Le & Ee).
  rewrite E. unfold is_in_range. cbn [result_of state_of fst snd].
  split; [reflexivity|]. split; [cbn; exact T|].
  split.
  { exists q0, y, e. split; [reflexivity|]. split; [reflexivity|].
    split; [exact L|]. split; [exact Le|]. split.
    - intros e' Le'. exact (linear_interpolate_unique q0 e' e Le' Le).
    - rewrite L. exact Ee. }
  rewrite !(set_range_unfold _ s Hs).
  repeat split; vm_compute; reflexivity.
Qed.

Lemma set_range_within_table_witness :
  cls fresh = Shooter /\
  is_float64 (Fin (15 # 2)) /\
  le (of_Z 7) (Fin (15 # 2)) = true /\
  le (Fin (15 # 2)) (of_Z 11) = true /\
  is_in_range (state_of (set_range (Fin (15 # 2)) fresh)) = true.
Proof.
  split; [reflexivity|]. split; [vm_compute; reflexivity|].
  split; [reflexivity|]. split; [reflexivity|].
  apply (set_range_within_table (Fin (15 # 2)) fresh);
    [reflexivity|vm_compute; reflexivity|reflexivity|reflexivity].
Defined.

(** C1 as stated fails: the target is not always the exact
    interpolant.  At the binary64 nearest to 7.1, which lies within the
    table, the exact interpolant is not a binary64; [interp] stores its
    rounding, 903.9999999999999. *)
Lemma set_range_not_exact :
  ~ (forall (d : num) (s : t),
        cls s = Shooter ->
        le (of_Z 7) d = true -> le d (of_Z 11) = true ->
        result_of (set_range d s) = Ok tt /\
        is_in_range (state_of (set_range d s)) = true /\
        (exists q y,
            d = Fin q /\ centre_rpm (state_of (set_range d s)) = Fin y /\
            linear_interpolate (breakpoints Shooter) q y) /\
        centre_rpm (state_of (set_range (of_Z 7) s)) = of_Z 880 /\
        centre_rpm (state_of (set_range (of_Z 11) s)) = of_Z 2400 /\
        centre_rpm (state_of (set_range (of_Z 9) s)) = of_Z 1500).
Proof.
  intros H.
  destruct (H (Fin (3996944669291315 # 562949953421312)) fresh
              eq_refl eq_refl eq_refl)
    as (_ & _ & (q & y & Eq & Ey & L) & _).
  injection Eq as <-.
  assert (V : centre_rpm
                (state_of
                   (set_range (Fin (3996944669291315 # 562949953421312))
                      fresh))
              = Fin (7951668092076031 # 8796093022208))
    by (vm_compute; reflexivity).
  rewrite V in Ey. injection Ey as <-.
  assert (X : linear_interpolate (breakpoints Shooter)
                (3996944669291315 # 562949953421312)
                (880 + 240 * ((3996944669291315 # 562949953421312) - 7))).
  { exists 0%nat, (7, 880), (8, 1120).
    split; [reflexivity|]. split; [reflexivity|].
    unfold on_segment; cbn [fst snd]. split; [lra|]. eval_inverses; lra. }
  pose proof (linear_interpolate_unique _ _ _ L X) as U.
  vm_compute in U. discriminate U.
Qed.

(** The distance of that counterexample is a binary64. *)
Lemma nearest_7_1_is_float64 :
  is_float64 (Fin (3996944669291315 # 562949953421312)).
Proof. vm_compute. reflexivity. Qed.

Lemma interp_at_7 :
  Numpy.interp (of_Z 7) (ranges Shooter) (centre_rpms Shooter)
  = Ok (of_Z 880).
Proof. vm_compute. reflexivity. Qed.

Lemma interp_at_11 :
  Numpy.interp (of_Z 11) (ranges Shooter) (centre_rpms Shooter)
  = Ok (of_Z 2400).
Proof. vm_compute. reflexivity. Qed.

Lemma interpolant_at_7 : linear_interpolate (breakpoints Shooter) 7 880.
Proof.
  exists 0%nat, (7, 880), (8, 1120).
  split; [reflexivity|]. split; [reflexivity|].
  unfold on_segment; cbn [fst snd]. split; [lra|]. eval_inverses; lra.
Qed.

Lemma interpolant_at_11 : linear_interpolate (breakpoints Shooter) 11 2400.
Proof.
  exists 3%nat, (10, 2150), (11, 2400).
  split; [reflexivity|]. split; [reflexivity|].
  unfold on_segment; cbn [fst snd]. split; [lra|]. eval_inverses; lra.
Qed.

(** C4. For every distance d below 7 or above 11, [set_range(d)] on a
    Shooter returns, leaves [in_range] false, and sets [centre_rpm] to
    the interpolation at the nearest endpoint of the table: 880, the
    interpolant at 7, when d is below 7, and 2400, the interpolant at
    11, when d is above 11.  That is what [interp] returns at that
    endpoint and what [set_range] of that endpoint sets;
    [set_range(5)] and [set_range(7)] give the same [centre_rpm], 880,
    and [set_range(15)] and [set_range(11)] the same, 2400. *)
Theorem set_range_outside_table (d : num) (s : t)
    (Hs : cls s = Shooter)
    (Hout : lt d (of_Z 7) = true \/ gt d (of_Z 11) = true) :
  result_of (set_range d s) = Ok tt /\
  is_in_range (state_of (set_range d s)) = false /\
  (lt d (of_Z 7) = true ->
   centre_rpm (state_of (set_range d s)) = of_Z 880) /\
  (gt d (of_Z 11) = true ->
   centre_rpm (state_of (set_range d s)) = of_Z 2400) /\
  (exists q y,
      nearest_endpoint d = Fin q /\
      centre_rpm (state_of (set_range d s)) = Fin y /\
      linear_interpolate (breakpoints Shooter) q y) /\
  Numpy.interp (nearest_endpoint d) (ranges Shooter) (centre_rpms Shooter)
    = Ok (centre_rpm (state_of (set_range d s))) /\
  centre_rpm (state_of (set_range d s))
    = centre_rpm (state_of (set_range (nearest_endpoint d) s)) /\
  centre_rpm (state_of (set_range (of_Z 5) s))
    = centre_rpm (state_of (set_range (of_Z 7) s)) /\
  centre_rpm (state_of (set_range (of_Z 15) s))
    = centre_rpm (state_of (set_range (of_Z 11) s)) /\
  centre_rpm (state_of (set_range (of_Z 5) s)) = of_Z 880 /\
  centre_rpm (state_of (set_range (of_Z 15) s)) = of_Z 2400.
Proof.
  assert (C7 : clamped (of_Z 7) = of_Z 7) by reflexivity.
  assert (C11 : clamped (of_Z 11) = of_Z 11) by reflexivity.
  assert (C5 : clamped (of_Z 5) = of_Z 7) by reflexivity.
  assert (C15 : clamped (of_Z 15) = of_Z 11) by reflexivity.
  assert (H : in_table d = false /\
              ((lt d (of_Z 7) = true /\ nearest_endpoint d = of_Z 7
                /\ clamped d = of_Z 7) \/
               (lt d (of_Z 7) = false /\ gt d (of_Z 11) = true /\
                nearest_endpoint d = of_Z 11 /\ clamped d = of_Z 11))).
  { unfold nearest_endpoint. destruct (lt d (of_Z 7)) eqn:B.
    - destruct (clamped_below d B) as [T C]. split; [exact T|]. left. auto.
    - destruct Hout as [A|A]; [discriminate A|].
      destruct (clamped_above d A) as [T C]. split; [exact T|]. right. auto. }
  destruct H as [T [(B & N & C)|(B & A & N & C)]].
  - rewrite !(set_range_unfold _ s Hs), T, C, N, C7, C11, C5, C15.
    rewrite interp_at_7, interp_at_11.
    unfold is_in_range. cbn [result_of state_of fst snd centre_rpm in_range
      set_outer_rpm set_centre_rpm set_in_range].
    repeat split.
    + intros A. unfold gt in A.
      destruct d as [q| | |]; try discriminate.
      exfalso. cbn -[Qlt_bool inject_Z] in A, B.
      order_facts. unfold inject_Z in *. lra.
    + exists (inject_Z 7), (inject_Z 880).
      split; [reflexivity|]. split; [reflexivity|]. exact interpolant_at_7.
  - rewrite !(set_range_unfold _ s Hs), T, C, N, C7, C11, C5, C15.
    rewrite interp_at_7, interp_at_11.
    unfold is_in_range. cbn [result_of state_of fst snd centre_rpm in_range
      set_outer_rpm set_centre_rpm set_in_range].
    repeat split.
    + intros B'. congruence.
    + exists (inject_Z 11), (inject_Z 2400).
      split; [reflexivity|]. split; [reflexivity|]. exact interpolant_at_11.
Qed.

Lemma set_range_outside_table_witness :
  cls fresh = Shooter /\
  (lt (of_Z 5) (of_Z 7) = true \/ gt (of_Z 5) (of_Z 11) = true) /\
  is_in_range (state_of (set_range (of_Z 5) fresh)) = false.
Proof.
  split; [reflexivity|]. split; [left; reflexivity|].
  apply (set_range_outside_table (of_Z 5) fresh);
    [reflexivity|left; reflexivity].
Defined.

(** C8. After [set_range(d)] on a Shooter, for every distance d (within
    the table or not, finite or not), the call has returned and
    [outer_rpm] is 5000. *)
Theorem set_range_outer_rpm (d : num) (s : t) (Hs : cls s = Shooter) :
  result_of (set_range d s) = Ok tt /\
  outer_rpm (state_of (set_range d s)) = of_Z 5000.
Proof.
  destruct (set_range_Shooter d s Hs) as (q & y & _ & _ & _ & _ & _ & E).
  rewrite E. split; reflexivity.
Qed.

Lemma set_range_outer_rpm_witness :
  cls fresh = Shooter /\
  outer_rpm (state_of (set_range NaN fresh)) = of_Z 5000.
Proof.
  split; [reflexivity|].
  apply (set_range_outer_rpm NaN fresh). reflexivity.
Defined.

(** C10. After any sequence of calls on a Shooter that contains at least
    one [set_range(d)], whatever the distances (NaN and the infinities
    included, since the clamp sends them to an endpoint), the sequence
    has run to its end and [centre_rpm] is a finite value within
    [880, 2400].  A single [set_range(d)] is the sequence of length
    one. *)
Theorem centre_rpm_within_table (cs : list Call) (s : t)
    (Hs : cls s = Shooter)
    (Hset : existsb is_SetRange cs = true) :
  result_of (run cs s) = Ok tt /\
  (exists y, centre_rpm (state_of (run cs s)) = Fin y /\ 880 <= y <= 2400) /\
  (forall d, exists y,
      centre_rpm (state_of (set_range d s)) = Fin y /\ 880 <= y <= 2400).
Proof.
  split; [|split].
  - apply (run_Shooter cs s Hs).
  - apply (run_bounded cs s Hs). right. exact Hset.
  - intros d. exact (call_centre_rpm (SetRange d) s Hs).
Qed.

Lemma centre_rpm_within_table_witness :
  cls fresh = Shooter /\
  existsb is_SetRange [SetRange (of_Z 5); Fire; Execute; SetRange PInf]
    = true /\
  result_of (run [SetRange (of_Z 5); Fire; Execute; SetRange PInf] fresh)
    = Ok tt.
Proof.
  split; [reflexivity|]. split; [reflexivity|].
  apply (centre_rpm_within_table
           [SetRange (of_Z 5); Fire; Execute; SetRange PInf] fresh);
    reflexivity.
Defined.

(** ** The pulse latch *)

(** One control cycle: the calls [cs] made since the last [execute],
    none of them an [execute], then [execute]. *)
Lemma cycle_pulses (cs : list Call) (s : t) :
  cls s = Shooter -> existsb is_Execute cs = false ->
  result_of (run (cs ++ [Execute]) s) = Ok tt /\
  inject (state_of (run (cs ++ [Execute]) s)) = false /\
  count is_startPulse (log_of (run (cs ++ [Execute]) s))
    = (if inject s || existsb is_Fire cs then 1 else 0)%nat.
Proof.
  intros Hs Hx.
  destruct (run_Shooter cs s Hs) as (R & _).
  destruct (run_latch cs s Hs Hx) as (I & N).
  rewrite run_app.
  destruct (run cs s) as [[r s1] l1] eqn:E.
  cbn [result_of state_of log_of fst snd] in R, I, N. subst r.
  rewrite (bind_Ok _ _ _ _ _ _ E). cbn [run call].
  rewrite (bind_Ok _ _ _ _ _ _ (execute_effect s1)).
  cbn [result_of state_of log_of fst snd ret].
  rewrite !count_app, N, I.
  destruct (inject s || existsb is_Fire cs); cbn; auto.
Qed.

Lemma fire_repeated (n : nat) (s : t) :
  run (repeat Fire (S n)) s = (Ok tt, set_inject true s, []).
Proof.
  revert s. induction n as [|n IH]; intros s.
  - reflexivity.
  - change (repeat Fire (S (S n))) with (Fire :: repeat Fire (S n)).
    rewrite (run_cons Fire _ s _ _ (fire_effect s)), IH. reflexivity.
Qed.

(** C5. The latch set by [fire()] is consumed by [execute()].  Take a
    Shooter and the calls made since its last [execute()].  If one or
    more of them is [fire()], the next [execute()] sends exactly one
    [startPulse()] in the whole cycle; if the latch was clear (as it is
    on a fresh instance and after every [execute()]) and none of them is
    [fire()], it sends none; either way the latch is clear afterwards.
    Calling [fire()] n+1 times leaves the same state as calling it once
    and sends nothing. *)
Theorem pulse_latch (cs : list Call) (s : t) (n : nat)
    (Hs : cls s = Shooter)
    (Hx : existsb is_Execute cs = false) :
  result_of (run (cs ++ [Execute]) s) = Ok tt /\
  inject (state_of (run (cs ++ [Execute]) s)) = false /\
  (existsb is_Fire cs = true ->
   count is_startPulse (log_of (run (cs ++ [Execute]) s)) = 1%nat) /\
  (inject s = false -> existsb is_Fire cs = false ->
   count is_startPulse (log_of (run (cs ++ [Execute]) s)) = 0%nat) /\
  inject fresh = false /\
  inject (state_of (execute s)) = false /\
  state_of (run (repeat Fire (S n)) s) = state_of (fire s) /\
  log_of (run (repeat Fire (S n)) s) = [].
Proof.
  destruct (cycle_pulses cs s Hs Hx) as (R & I & N).
  split; [exact R|]. split; [exact I|].
  split; [intros F; rewrite N, F, orb_true_r; reflexivity|].
  split; [intros L F; rewrite N, L, F; reflexivity|].
  split; [reflexivity|].
  split; [rewrite execute_effect; cbn; destruct (inject s) eqn:E; auto|].
  rewrite fire_repeated. split; reflexivity.
Qed.

Lemma pulse_latch_witness :
  cls fresh = Shooter /\
  existsb is_Execute [Fire; SetRange (of_Z 9); Fire] = false /\
  inject (state_of (run ([Fire; SetRange (of_Z 9); Fire] ++ [Execute]) fresh))
    = false.
Proof.
  split; [reflexivity|]. split; [reflexivity|].
  apply (pulse_latch [Fire; SetRange (of_Z 9); Fire] fresh 2);
    reflexivity.
Defined.

(** ** [on_enable] *)

(** C9. [on_enable()] returns after sending exactly one [stopMotor()] to
    the centre motor and one to the outer motor and nothing else: no
    [setReference()], no [startPulse()]; the object is unchanged, so the
    two rpm targets, [in_range] and [inject] keep their values. *)
Theorem on_enable_stops_both (s : t) :
  result_of (on_enable s) = Ok tt /\
  log_of (on_enable s) = [stopMotor centre_motor; stopMotor outer_motor] /\
  count (is_stop_of centre_motor) (log_of (on_enable s)) = 1%nat /\
  count (is_stop_of outer_motor) (log_of (on_enable s)) = 1%nat /\
  count is_setReference (log_of (on_enable s)) = 0%nat /\
  count is_startPulse (log_of (on_enable s)) = 0%nat /\
  state_of (on_enable s) = s /\
  centre_rpm (state_of (on_enable s)) = centre_rpm s /\
  outer_rpm (state_of (on_enable s)) = outer_rpm s /\
  in_range (state_of (on_enable s)) = in_range s /\
  inject (state_of (on_enable s)) = inject s.
Proof. rewrite on_enable_effect. repeat split. Qed.

(** ** Readiness *)

Lemma le_abs_sub (tol : Z) (target reading : num) :
  le (abs (sub target reading)) (of_Z tol) = true
  <-> error_within (inject_Z tol) target reading.
Proof.
  unfold error_within.
  destruct target as [a| | |], reading as [b| | |]; cbn -[Qle_bool inject_Z].
  1: { split.
       - intros H. exists a, b. order_facts. auto.
       - intros (a' & b' & Ea & Eb & H). injection Ea as <-. injection Eb as <-.
         apply Qle_bool_iff. exact H. }
  all: split; [discriminate|intros (a' & b' & Ea & Eb & _); discriminate].
Qed.

Lemma is_at_speed_iff (s : t) (hw : Sensors) :
  velocity_tolerance s = of_Z 50 ->
  is_at_speed s hw = true
  <-> error_within 50 (centre_rpm s) (centre_velocity hw) /\
      error_within 50 (outer_rpm s) (outer_velocity hw).
Proof.
  intros V. unfold is_at_speed. rewrite V, andb_true_iff, !le_abs_sub.
  reflexivity.
Qed.

(** C6. On a reachable Shooter, [is_at_speed()] is true exactly when the
    centre error and the outer error are both finite and at most 50.
    The bound is inclusive: with finite targets and readings, an error
    of exactly 50 on one wheel (the other within 50) gives true, and an
    error of 50.01 on either wheel gives false. *)
Theorem is_at_speed_tolerance (s : t) (hw : Sensors) (Hr : reachable s) :
  (is_at_speed s hw = true
   <-> error_within 50 (centre_rpm s) (centre_velocity hw) /\
       error_within 50 (outer_rpm s) (outer_velocity hw)) /\
  (forall c o cv ov : Q,
      centre_rpm s = Fin c -> outer_rpm s = Fin o ->
      centre_velocity hw = Fin cv -> outer_velocity hw = Fin ov ->
      (is_at_speed s hw = true
       <-> Qabs (c - cv) <= 50 /\ Qabs (o - ov) <= 50) /\
      (Qabs (c - cv) == 50 -> Qabs (o - ov) <= 50 ->
       is_at_speed s hw = true) /\
      (Qabs (c - cv) <= 50 -> Qabs (o - ov) == 50 ->
       is_at_speed s hw = true) /\
      (Qabs (c - cv) == 5001 # 100 \/ Qabs (o - ov) == 5001 # 100 ->
       is_at_speed s hw = false)).
Proof.
  destruct (reachable_Shooter s Hr) as [_ V].
  pose proof (is_at_speed_iff s hw V) as I.
  split; [exact I|].
  intros c o cv ov Ec Eo Ecv Eov.
  assert (J : is_at_speed s hw = true
              <-> Qabs (c - cv) <= 50 /\ Qabs (o - ov) <= 50).
  { rewrite I, Ec, Eo, Ecv, Eov. unfold error_within. split.
    - intros [(a & b & Ea & Eb & H1) (a' & b' & Ea' & Eb' & H2)].
      injection Ea as <-. injection Eb as <-.
      injection Ea' as <-. injection Eb' as <-. auto.
    - intros [H1 H2]. split; do 2 eexists; eauto. }
  split; [exact J|].
  split; [intros H1 H2; apply J; split; [rewrite H1; lra|exact H2]|].
  split; [intros H1 H2; apply J; split; [exact H1|rewrite H2; lra]|].
  intros H. destruct (is_at_speed s hw) eqn:E; [|reflexivity].
  exfalso. destruct (proj1 J eq_refl) as [H1 H2].
  destruct H as [H|H]; rewrite H in *; lra.
Qed.

Lemma is_at_speed_tolerance_witness :
  reachable (state_of (run [SetRange (of_Z 9)] fresh)) /\
  (is_at_speed (state_of (run [SetRange (of_Z 9)] fresh))
     {| centre_velocity := of_Z 1450; outer_velocity := of_Z 5050;
        loading_piston_get := true |} = true
   <-> error_within 50 (of_Z 1500) (of_Z 1450) /\
       error_within 50 (of_Z 5000) (of_Z 5050)).
Proof.
  assert (R : reachable (state_of (run [SetRange (of_Z 9)] fresh))).
  { exists [SetRange (of_Z 9)]. split; reflexivity. }
  split; [exact R|].
  apply (is_at_speed_tolerance
           (state_of (run [SetRange (of_Z 9)] fresh))
           {| centre_velocity := of_Z 1450; outer_velocity := of_Z 5050;
              loading_piston_get := true |} R).
Defined.

(** C7. For every object state and every hardware reading,
    [is_ready()] is the conjunction of [is_in_range()], [is_at_speed()]
    and the negation of [is_firing()]; each of the eight combinations of
    the three occurs on a reachable Shooter. *)
Theorem is_ready_conjunction (s : t) (hw : Sensors) :
  is_ready s hw
    = is_in_range s && is_at_speed s hw && negb (is_firing s hw) /\
  (forall a b c : bool, exists s' hw',
      reachable s' /\
      is_in_range s' = a /\ is_at_speed s' hw' = b /\ is_firing s' hw' = c /\
      is_ready s' hw' = a && b && negb c).
Proof.
  split.
  - unfold is_ready.
    destruct (is_in_range s), (is_at_speed s hw); reflexivity.
  - intros a b c.
    exists (state_of (set_range (of_Z (if a then 9 else 5)) fresh)).
    exists {| centre_velocity := of_Z (if b then (if a then 1500 else 880) else 0);
              outer_velocity := of_Z 5000;
              loading_piston_get := negb c |}.
    split.
    + exists [SetRange (of_Z (if a then 9 else 5))].
      destruct a; split; reflexivity.
    + destruct a, b, c; repeat split.
Qed.

(** ** Construction *)

Lemma init_fresh : __init__ Shooter = Ok fresh.
Proof. reflexivity. Qed.

(** C3, as the code has it.  [__init__] takes no table and checks
    none: whatever the class-level tables are, it returns an instance
    with zero targets, both flags false and a tolerance of 50.  The
    tables of [class Shooter] are fixed and well formed: five entries
    each, distances strictly increasing. *)
Theorem init_never_raises (c : class) :
  __init__ c =
    Ok {| cls := c; outer_rpm := of_Z 0; centre_rpm := of_Z 0;
          inject := false; in_range := false;
          velocity_tolerance := of_Z 50 |} /\
  malformed Shooter = false /\
  length (ranges Shooter) = 5%nat /\
  length (centre_rpms Shooter) = 5%nat /\
  strictly_increasing (ranges Shooter) = true.
Proof. repeat split. Qed.

(** C3 as stated fails: a class whose [ranges] has one entry and whose
    [centre_rpms] has two is malformed on both counts, and [__init__]
    returns an instance of it. *)
Lemma init_accepts_malformed :
  ~ (forall c : class, malformed c = true -> exists e, __init__ c = Raise e).
Proof.
  intros H.
  destruct (H {| ranges := [7]%Z; centre_rpms := [880; 1120]%Z |} eq_refl)
    as [e E].
  discriminate E.
Qed.

(** * Further properties of the component *)

(** ** The shape of the rpm curve *)

(** The clamp on finite distances. *)
Lemma clamped_Fin (q : Q) :
  exists q', clamped (Fin q) = Fin q' /\ 7 <= q' <= 11 /\
    ((7 <= q <= 11 /\ q' = q) \/ (q < 7 /\ q' == 7) \/ (11 < q /\ q' == 11)).
Proof.
  destruct (Qlt_le_dec q 7) as [B|B].
  - assert (H : lt (Fin q) (of_Z 7) = true) by (apply Qlt_bool_true; exact B).
    destruct (clamped_below _ H) as [_ C]. exists (inject_Z 7).
    split; [exact C|]. unfold inject_Z. split; [lra|]. right. left.
    split; [exact B|reflexivity].
  - destruct (Qlt_le_dec 11 q) as [A|A].
    + assert (H : gt (Fin q) (of_Z 11) = true) by (apply Qlt_bool_true; exact A).
      destruct (clamped_above _ H) as [_ C]. exists (inject_Z 11).
      split; [exact C|]. unfold inject_Z. split; [lra|]. right. right.
      split; [exact A|reflexivity].
    + assert (H7 : le (of_Z 7) (Fin q) = true) by (apply Qle_bool_iff; exact B).
      assert (H11 : le (Fin q) (of_Z 11) = true) by (apply Qle_bool_iff; exact A).
      destruct (in_table_true _ H7 H11) as (_ & C & _).
      exists q. split; [exact C|]. split; [lra|]. left. split; [lra|reflexivity].
Qed.

Lemma clamped_monotone (d1 d2 : num) (q1 q2 : Q) :
  le d1 d2 = true -> clamped d1 = Fin q1 -> clamped d2 = Fin q2 -> q1 <= q2.
Proof.
  intros L C1 C2.
  destruct (clamped_in_table d1) as (a & Ca & Ba).
  destruct (clamped_in_table d2) as (b & Cb & Bb).
  rewrite C1 in Ca. injection Ca as <-. rewrite C2 in Cb. injection Cb as <-.
  destruct d1 as [x| | |], d2 as [y| | |]; try discriminate L.
  1: { cbn -[Qle_bool] in L. order_facts.
       destruct (clamped_Fin x) as (x' & Cx & _ & Hx).
       destruct (clamped_Fin y) as (y' & Cy & _ & Hy).
       rewrite C1 in Cx. injection Cx as <-.
       rewrite C2 in Cy. injection Cy as <-.
       destruct Hx as [[? ->]|[[? Ex]|[? Ex]]];
         destruct Hy as [[? ->]|[[? Ey]|[? Ey]]];
         try rewrite Ex; try rewrite Ey; lra. }
  all: repeat match goal with
       | H : clamped PInf = Fin _ |- _ =>
         change (clamped PInf) with (of_Z 11) in H; injection H as <-
       | H : clamped NInf = Fin _ |- _ =>
         change (clamped NInf) with (of_Z 7) in H; injection H as <-
       end; unfold inject_Z in *; lra.
Qed.

(** X2. The centre target never decreases with the distance: for any two
    distances with d1 <= d2 (infinities allowed, NaN excluded by the
    comparison), [set_range(d1)] sets a centre target no greater than
    [set_range(d2)] does. *)
Theorem centre_rpm_monotone (d1 d2 : num) (s1 s2 : t)
    (H1 : cls s1 = Shooter) (H2 : cls s2 = Shooter)
    (Hle : le d1 d2 = true) :
  exists y1 y2,
    centre_rpm (state_of (set_range d1 s1)) = Fin y1 /\
    centre_rpm (state_of (set_range d2 s2)) = Fin y2 /\
    y1 <= y2.
Proof.
  destruct (set_range_Shooter d1 s1 H1) as (q1 & y1 & C1 & B1 & _ & L1 & _ & E1).
  destruct (set_range_Shooter d2 s2 H2) as (q2 & y2 & C2 & B2 & _ & L2 & _ & E2).
  exists y1, y2. rewrite E1, E2. repeat split.
  pose proof (clamped_monotone d1 d2 q1 q2 Hle C1 C2) as Q.
  rewrite L1, L2. apply curve_mono; assumption.
Qed.

Lemma centre_rpm_monotone_witness :
  cls fresh = Shooter /\ le NInf (Fin (17 # 2)) = true /\
  exists y1 y2,
    centre_rpm (state_of (set_range NInf fresh)) = Fin y1 /\
    centre_rpm (state_of (set_range (Fin (17 # 2)) fresh)) = Fin y2 /\
    y1 <= y2.
Proof.
  split; [reflexivity|]. split; [reflexivity|].
  apply (centre_rpm_monotone NInf (Fin (17 # 2)) fresh fresh); reflexivity.
Defined.

Lemma linear_interpolate_slopes (q1 q2 y1 y2 : Q) :
  linear_interpolate (breakpoints Shooter) q1 y1 ->
  linear_interpolate (breakpoints Shooter) q2 y2 ->
  q1 <= q2 ->
  240 * (q2 - q1) <= y2 - y1 <= 650 * (q2 - q1).
Proof.
  intros (i & p0 & p1 & E0 & E1 & [B V]) (j & r0 & r1 & F0 & F1 & [B' V']) L.
  destruct (segments_of_Shooter i p0 p1 E0 E1)
    as [[-> ->]|[[-> ->]|[[-> ->]|[-> ->]]]];
    destruct (segments_of_Shooter j r0 r1 F0 F1)
      as [[-> ->]|[[-> ->]|[[-> ->]|[-> ->]]]].
  all: cbn [fst snd] in B, V, B', V'; unfold inject_Z in *.
  all: rewrite V, V'; eval_inverses; lra.
Qed.

(** X3. The centre target changes by at most 650 rpm per unit of
    distance, up to rounding: for binary64 distances q1 <= q2 the targets
    y1, y2 satisfy 0 <= y2 - y1 <= 650 * (q2 - q1) + 2^-40.  When both
    distances lie within the table the change is at least
    240 * (q2 - q1) - 2^-40. *)
Theorem centre_rpm_slope_bounds (q1 q2 : Q) (s1 s2 : t)
    (H1 : cls s1 = Shooter) (H2 : cls s2 = Shooter)
    (F1 : is_float64 (Fin q1)) (F2 : is_float64 (Fin q2))
    (Hle : q1 <= q2) :
  exists y1 y2,
    centre_rpm (state_of (set_range (Fin q1) s1)) = Fin y1 /\
    centre_rpm (state_of (set_range (Fin q2) s2)) = Fin y2 /\
    0 <= y2 - y1 <= 650 * (q2 - q1) + pow2 (-40) /\
    (7 <= q1 -> q2 <= 11 -> 240 * (q2 - q1) - pow2 (-40) <= y2 - y1).
Proof.
  destruct (set_range_Shooter (Fin q1) s1 H1)
    as (a & y1 & C1 & Ba & _ & L1 & _ & E1).
  destruct (set_range_Shooter (Fin q2) s2 H2)
    as (b & y2 & C2 & Bb & _ & L2 & _ & E2).
  exists y1, y2. rewrite E1, E2. split; [reflexivity|]. split; [reflexivity|].
  destruct (clamped_Fin q1) as (a' & Ca & _ & Ha).
  destruct (clamped_Fin q2) as (b' & Cb & _ & Hb).
  rewrite C1 in Ca. injection Ca as <-. rewrite C2 in Cb. injection Cb as <-.
  assert (Q : a <= b).
  { apply (clamped_monotone (Fin q1) (Fin q2)); auto.
    apply Qle_bool_iff. exact Hle. }
  assert (M : y1 <= y2) by (rewrite L1, L2; apply curve_mono; assumption).
  assert (Fa : fl a == a).
  { destruct Ha as [[_ ->]|[[_ Ea]|[_ Ea]]]; [exact F1| |].
    - apply Qeq_trans with (fl 7); [apply fl_eqv; exact Ea|].
      rewrite Ea. vm_compute. reflexivity.
    - apply Qeq_trans with (fl 11); [apply fl_eqv; exact Ea|].
      rewrite Ea. vm_compute. reflexivity. }
  assert (Fb : fl b == b).
  { destruct Hb as [[_ ->]|[[_ Eb]|[_ Eb]]]; [exact F2| |].
    - apply Qeq_trans with (fl 7); [apply fl_eqv; exact Eb|].
      rewrite Eb. vm_compute. reflexivity.
    - apply Qeq_trans with (fl 11); [apply fl_eqv; exact Eb|].
      rewrite Eb. vm_compute. reflexivity. }
  destruct (curve_err a Ba Fa) as (ea & La & Ea).
  destruct (curve_err b Bb Fb) as (eb & Lb & Eb).
  pose proof (linear_interpolate_slopes a b ea eb La Lb Q) as S.
  rewrite <- L1 in Ea. rewrite <- L2 in Eb.
  apply Qabs_Qle_condition in Ea, Eb.
  assert (P41 : pow2 (-41) == 1 # 2199023255552) by (vm_compute; reflexivity).
  assert (P40 : pow2 (-40) == 1 # 1099511627776) by (vm_compute; reflexivity).
  rewrite P41 in Ea, Eb. rewrite P40.
  split.
  - destruct Ha as [[? ->]|[[? Xa]|[? Xa]]];
      destruct Hb as [[? ->]|[[? Xb]|[? Xb]]];
      try rewrite Xa in S; try rewrite Xb in S; lra.
  - intros G7 G11.
    destruct Ha as [[? ->]|[[? Xa]|[? Xa]]]; [|lra|lra].
    destruct Hb as [[? ->]|[[? Xb]|[? Xb]]]; lra.
Qed.

Lemma centre_rpm_slope_bounds_witness :
  cls fresh = Shooter /\ is_float64 (Fin 9) /\ is_float64 (Fin (19 # 2)) /\
  9 <= 19 # 2 /\
  exists y1 y2,
    centre_rpm (state_of (set_range (Fin 9) fresh)) = Fin y1 /\
    centre_rpm (state_of (set_range (Fin (19 # 2)) fresh)) = Fin y2 /\
    0 <= y2 - y1 <= 650 * ((19 # 2) - 9) + pow2 (-40) /\
    (7 <= 9 -> 19 # 2 <= 11 -> 240 * ((19 # 2) - 9) - pow2 (-40) <= y2 - y1).
Proof.
  split; [reflexivity|]. split; [vm_compute; reflexivity|].
  split; [vm_compute; reflexivity|]. split; [lra|].
  apply (centre_rpm_slope_bounds 9 (19 # 2) fresh fresh);
    [reflexivity|reflexivity|vm_compute; reflexivity|vm_compute; reflexivity
    |lra].
Defined.

(** ** What [set_range] keeps and what it overwrites *)

(** X1. [set_range] overwrites: on a Shooter, the state after
    [set_range(d1); set_range(d2)] is the state after [set_range(d2)]
    alone, so the targets and [in_range] depend on the last distance
    only (and a repeated call changes nothing).  [set_range] sends no
    command and leaves a pending [fire()] request and the tolerance
    alone. *)
Theorem set_range_overwrites (d1 d2 : num) (s : t) (Hs : cls s = Shooter) :
  state_of (set_range d2 (state_of (set_range d1 s)))
    = state_of (set_range d2 s) /\
  log_of (set_range d1 s) = [] /\
  inject (state_of (set_range d1 s)) = inject s /\
  velocity_tolerance (state_of (set_range d1 s)) = velocity_tolerance s.
Proof.
  destruct (set_range_Shooter d1 s Hs) as (q1 & y1 & _ & _ & _ & _ & _ & E1).
  rewrite E1. cbn [state_of log_of fst snd].
  split; [|repeat split].
  destruct (set_range_Shooter d2 s Hs) as (q2 & y2 & C2 & _ & I2 & _).
  rewrite !set_range_unfold by (try exact Hs; cbn; exact Hs).
  rewrite C2, I2. reflexivity.
Qed.

Lemma set_range_overwrites_witness :
  cls fresh = Shooter /\
  state_of (set_range (of_Z 9) (state_of (set_range NaN fresh)))
    = state_of (set_range (of_Z 9) fresh).
Proof.
  split; [reflexivity|].
  apply (set_range_overwrites NaN (of_Z 9) fresh). reflexivity.
Defined.

(** X4. After [set_range(d)] on a Shooter, [in_range] is true exactly
    when d is a finite number with 7 <= d <= 11.  A distance that is
    not a finite number is never in range: NaN and +infinity set the
    centre target to 2400 (Python's [min] and [max] keep 11 against a
    NaN), -infinity sets it to 880. *)
Theorem in_range_iff (d : num) (s : t) (Hs : cls s = Shooter) :
  (is_in_range (state_of (set_range d s)) = true
   <-> exists q, d = Fin q /\ 7 <= q <= 11) /\
  (d = NaN \/ d = PInf ->
   is_in_range (state_of (set_range d s)) = false /\
   centre_rpm (state_of (set_range d s)) = of_Z 2400) /\
  (d = NInf ->
   is_in_range (state_of (set_range d s)) = false /\
   centre_rpm (state_of (set_range d s)) = of_Z 880).
Proof.
  split; [|split].
  - destruct (set_range_Shooter d s Hs) as (q & y & _ & _ & _ & _ & _ & E).
    rewrite E. unfold is_in_range. cbn [state_of fst snd in_range set_outer_rpm
      set_centre_rpm set_in_range].
    unfold in_table. rewrite andb_true_iff. split.
    + intros [H7 H11]. destruct (in_table_true d H7 H11) as (_ & _ & X).
      exact X.
    + intros (x & -> & [H7 H11]). split; apply Qle_bool_iff; assumption.
  - intros [-> | ->]; rewrite (set_range_unfold _ s Hs); split; reflexivity.
  - intros ->. rewrite (set_range_unfold _ s Hs). split; reflexivity.
Qed.

Lemma in_range_iff_witness :
  cls fresh = Shooter /\
  (is_in_range (state_of (set_range NaN fresh)) = true
   <-> exists q, NaN = Fin q /\ 7 <= q <= 11).
Proof.
  split; [reflexivity|].
  apply (in_range_iff NaN fresh). reflexivity.
Defined.

(** X5. The interpolation reproduces the table: for every entry
    [ranges[i]], [set_range(ranges[i])] returns in range with the centre
    target [centre_rpms[i]]. *)
Theorem set_range_at_breakpoint (i : nat) (z : Z) (s : t)
    (Hs : cls s = Shooter)
    (Hi : nth_error (ranges Shooter) i = Some z) :
  exists r,
    nth_error (centre_rpms Shooter) i = Some r /\
    is_in_range (state_of (set_range (of_Z z) s)) = true /\
    centre_rpm (state_of (set_range (of_Z z) s)) = of_Z r.
Proof.
  destruct i as [|[|[|[|[|[|i]]]]]]; cbn in Hi; try discriminate;
    injection Hi as <-; eexists; (split; [reflexivity|]);
    rewrite (set_range_unfold _ s Hs); split; reflexivity.
Qed.

Lemma set_range_at_breakpoint_witness :
  cls fresh = Shooter /\ nth_error (ranges Shooter) 3 = Some 10%Z /\
  exists r,
    nth_error (centre_rpms Shooter) 3 = Some r /\
    is_in_range (state_of (set_range (of_Z 10) fresh)) = true /\
    centre_rpm (state_of (set_range (of_Z 10) fresh)) = of_Z r.
Proof.
  split; [reflexivity|]. split; [reflexivity|].
  apply (set_range_at_breakpoint 3 10 fresh); reflexivity.
Defined.

(** ** What a sequence of calls sends *)

Lemma call_accounts (c : Call) (s : t) :
  cls s = Shooter ->
  exists s' l,
    call c s = (Ok tt, s', l) /\ cls s' = Shooter /\
    inject s' = (if is_Execute c then false else inject s || is_Fire c) /\
    count is_startPulse l = b2n (is_Execute c && inject s) /\
    count is_setReference l = (2 * b2n (is_Execute c))%nat /\
    count (is_stop_of centre_motor) l = b2n (is_OnEnable c) /\
    count (is_stop_of outer_motor) l = b2n (is_OnEnable c) /\
    length l = (2 * b2n (is_Execute c) + 2 * b2n (is_OnEnable c)
                + count is_startPulse l)%nat /\
    (targets_ok s -> targets_ok s' /\ Forall reference_ok l).
Proof.
  intros Hc. destruct c as [d| | |]; cbn [call is_Execute is_Fire is_OnEnable].
  - destruct (set_range_Shooter d s Hc) as (q & y & _ & _ & _ & _ & B & E).
    rewrite E. do 2 eexists. split; [reflexivity|]. cbn.
    rewrite orb_false_r. repeat split; auto.
    right. split; [exists y; split; [reflexivity|exact B]|reflexivity].
  - rewrite fire_effect. do 2 eexists. split; [reflexivity|]. cbn.
    rewrite orb_true_r. repeat split; auto.
  - rewrite execute_effect. do 2 eexists. split; [reflexivity|].
    destruct (inject s) eqn:E; cbn; rewrite ?E; repeat split; auto.
    all: repeat apply Forall_cons; try apply Forall_nil; cbn; try exact I.
    all: destruct H as [(C & O & _)|((y & C & B) & O)]; rewrite ?C, ?O.
    all: first [left; reflexivity | right; first [reflexivity | eauto]].
  - rewrite on_enable_effect. do 2 eexists. split; [reflexivity|]. cbn.
    rewrite orb_false_r. repeat split; auto. repeat constructor.
Qed.

Lemma calls_cons (p : Call -> bool) (c : Call) (cs : list Call) :
  calls p (c :: cs) = (b2n (p c) + calls p cs)%nat.
Proof. unfold calls. cbn. destruct (p c); reflexivity. Qed.

(** The log of a sequence of calls, with the handles present. *)
Lemma run_accounting (cs : list Call) (s : t) (Hs : cls s = Shooter) :
  result_of (run cs s) = Ok tt /\
  count is_setReference (log_of (run cs s)) = (2 * calls is_Execute cs)%nat /\
  count (is_stop_of centre_motor) (log_of (run cs s)) = calls is_OnEnable cs /\
  count (is_stop_of outer_motor) (log_of (run cs s)) = calls is_OnEnable cs /\
  length (log_of (run cs s))
    = (2 * calls is_Execute cs + 2 * calls is_OnEnable cs
       + count is_startPulse (log_of (run cs s)))%nat.
Proof.
  revert s Hs. induction cs as [|c cs IH]; intros s Hs.
  - repeat split.
  - destruct (call_accounts c s Hs)
      as (s' & l & E & Hs' & _ & _ & R & SC & SO & Len & _).
    rewrite (run_cons _ _ _ _ _ E). cbn [result_of state_of log_of fst snd].
    destruct (IH s' Hs') as (I1 & I2 & I3 & I4 & I5).
    rewrite !count_app, length_app, !calls_cons, I2, I3, I4, I5, R, SC, SO, Len.
    repeat split; try exact I1; lia.
Qed.

(** X8. The solenoid is never pulsed more often than [fire()] was
    called: over any sequence of calls on a Shooter, the pulses sent plus
    the request still pending at the end are at most the [fire()] calls
    plus the request pending at the start.  Nor is it pulsed more than
    once per [execute()]. *)
Theorem pulses_bounded_by_fires (cs : list Call) (s : t)
    (Hs : cls s = Shooter) :
  (count is_startPulse (log_of (run cs s)) + b2n (inject (state_of (run cs s)))
   <= calls is_Fire cs + b2n (inject s))%nat /\
  (count is_startPulse (log_of (run cs s)) <= calls is_Execute cs)%nat.
Proof.
  revert s Hs. induction cs as [|c cs IH]; intros s Hs.
  - cbn. lia.
  - destruct (call_accounts c s Hs) as (s' & l & E & Hs' & I & P & _).
    rewrite (run_cons _ _ _ _ _ E). cbn [result_of state_of log_of fst snd].
    destruct (IH s' Hs') as (J1 & J2).
    rewrite !count_app, !calls_cons, P. rewrite I in J1.
    destruct c; cbn [is_Execute is_Fire andb b2n] in *;
      destruct (inject s); cbn [orb b2n] in *; lia.
Qed.

Lemma pulses_bounded_by_fires_witness :
  cls fresh = Shooter /\
  (count is_startPulse
     (log_of (run [Fire; Fire; Execute; Execute; Fire] fresh))
   <= calls is_Execute [Fire; Fire; Execute; Execute; Fire])%nat.
Proof.
  split; [reflexivity|].
  apply (pulses_bounded_by_fires [Fire; Fire; Execute; Execute; Fire] fresh).
  reflexivity.
Defined.

Lemma run_targets_ok (cs : list Call) (s : t) :
  cls s = Shooter -> targets_ok s ->
  targets_ok (state_of (run cs s)) /\ Forall reference_ok (log_of (run cs s)).
Proof.
  revert s. induction cs as [|c cs IH]; intros s Hs T.
  - split; [exact T|constructor].
  - destruct (call_accounts c s Hs)
      as (s' & l & E & Hs' & _ & _ & _ & _ & _ & _ & K).
    destruct (K T) as [T' F].
    rewrite (run_cons _ _ _ _ _ E). cbn [result_of state_of log_of fst snd].
    destruct (IH s' Hs' T') as [T'' F'].
    split; [exact T''|]. apply Forall_app. split; assumption.
Qed.

Lemma fresh_targets_ok : targets_ok fresh.
Proof. left. repeat split. Qed.

(** X6. From construction on, whatever is called with whatever
    distances, every velocity reference sent to the centre PID is 0 (no
    range set yet) or a finite value within [880, 2400], and every
    reference sent to the outer PID is 0 or 5000. *)
Theorem references_within_table (cs : list Call) :
  Forall reference_ok (log_of (run cs fresh)).
Proof. apply (run_targets_ok cs fresh eq_refl fresh_targets_ok). Qed.

(** X11. When a reachable Shooter reports ready, the last distance set
    was within the table, the piston reads [True], and the measured
    velocities are finite numbers with the centre wheel within
    [830, 2450] and the outer wheel within [4950, 5050]. *)
Theorem ready_windows (s : t) (hw : Sensors)
    (Hr : reachable s) (Hready : is_ready s hw = true) :
  in_range s = true /\ loading_piston_get hw = true /\
  exists cv ov,
    centre_velocity hw = Fin cv /\ outer_velocity hw = Fin ov /\
    830 <= cv <= 2450 /\ 4950 <= ov <= 5050.
Proof.
  destruct (reachable_Shooter s Hr) as [_ V].
  assert (T : targets_ok s).
  { destruct Hr as (cs & _ & <-).
    apply (run_targets_ok cs fresh eq_refl fresh_targets_ok). }
  unfold is_ready, is_in_range, is_firing in Hready.
  destruct (in_range s) eqn:R; [|discriminate].
  destruct (is_at_speed s hw) eqn:A; [|discriminate].
  rewrite negb_involutive in Hready.
  split; [reflexivity|]. split; [exact Hready|].
  apply (is_at_speed_iff s hw V) in A.
  destruct A as [(c & cv & Ec & Ecv & Hc) (o & ov & Eo & Eov & Ho)].
  exists cv, ov. split; [exact Ecv|]. split; [exact Eov|].
  destruct T as [(_ & _ & F)|((y & Ey & B) & O)]; [congruence|].
  rewrite Ec in Ey. injection Ey as ->. rewrite Eo in O. injection O as ->.
  apply Qabs_Qle_condition in Hc, Ho. unfold inject_Z in *. lra.
Qed.

Lemma ready_windows_witness :
  reachable (state_of (run [SetRange (of_Z 9)] fresh)) /\
  is_ready (state_of (run [SetRange (of_Z 9)] fresh))
    {| centre_velocity := of_Z 1480; outer_velocity := of_Z 5020;
       loading_piston_get := true |} = true /\
  in_range (state_of (run [SetRange (of_Z 9)] fresh)) = true.
Proof.
  assert (R : reachable (state_of (run [SetRange (of_Z 9)] fresh))).
  { exists [SetRange (of_Z 9)]. split; reflexivity. }
  split; [exact R|]. split; [reflexivity|].
  apply (ready_windows _ {| centre_velocity := of_Z 1480;
                            outer_velocity := of_Z 5020;
                            loading_piston_get := true |} R).
  reflexivity.
Defined.

(** ** [on_enable] among other calls *)

Lemma call_sends_no_stop (c : Call) (s s' : t) (l : list Cmd) :
  cls s = Shooter ->
  is_OnEnable c = false -> call c s = (Ok tt, s', l) ->
  filter (fun x => negb (is_stopMotor x)) l = l.
Proof.
  intros Hs. destruct c as [d| | |]; cbn [call is_OnEnable]; intros N E;
    try discriminate N.
  - destruct (set_range_Shooter d s Hs) as (q & y & _ & _ & _ & _ & _ & R).
    rewrite R in E. injection E as _ <-. reflexivity.
  - rewrite fire_effect in E. injection E as _ <-. reflexivity.
  - rewrite execute_effect in E. injection E as _ <-.
    destruct (inject s); reflexivity.
Qed.

(** X7. [on_enable()] only stops the motors for the moment: it resets
    neither the targets nor a pending [fire()] request.  Removing every
    [on_enable()] from a sequence of calls on a Shooter leaves the final
    state unchanged and removes from the log the [stopMotor] commands
    and nothing else, so the next [execute()] commands again the targets
    held before. *)
Theorem on_enable_transparent (cs : list Call) (s : t)
    (Hs : cls s = Shooter) :
  state_of (run (filter (fun c => negb (is_OnEnable c)) cs) s)
    = state_of (run cs s) /\
  log_of (run (filter (fun c => negb (is_OnEnable c)) cs) s)
    = filter (fun x => negb (is_stopMotor x)) (log_of (run cs s)).
Proof.
  revert s Hs. induction cs as [|c cs IH]; intros s Hs.
  - split; reflexivity.
  - destruct (call_Shooter c s Hs) as (s' & l & E & Hs' & _).
    rewrite (run_cons _ _ _ _ _ E). cbn [state_of log_of fst snd filter].
    rewrite filter_app. destruct (IH s' Hs') as [I1 I2].
    destruct (is_OnEnable c) eqn:N; cbn [negb].
    + destruct c; try discriminate N. cbn [call] in E.
      rewrite on_enable_effect in E. injection E as <- <-.
      split; [exact I1|]. rewrite I2. reflexivity.
    + rewrite (run_cons _ _ _ _ _ E). cbn [state_of log_of fst snd].
      rewrite (call_sends_no_stop c s s' l Hs N E), I2. split; [exact I1|reflexivity].
Qed.

Lemma on_enable_transparent_witness :
  cls fresh = Shooter /\
  state_of (run (filter (fun c => negb (is_OnEnable c))
                   [SetRange (of_Z 8); Fire; OnEnable; Execute]) fresh)
    = state_of (run [SetRange (of_Z 8); Fire; OnEnable; Execute] fresh).
Proof.
  split; [reflexivity|].
  apply (on_enable_transparent
           [SetRange (of_Z 8); Fire; OnEnable; Execute] fresh).
  reflexivity.
Defined.

(** ** Tables other than those of [class Shooter] *)

(** X12. With an empty [ranges], [set_range] raises [IndexError] at
    [ranges[0]], before it changes any attribute or sends anything. *)
Theorem set_range_empty_ranges (d : num) (s : t)
    (He : ranges (cls s) = []) :
  set_range d s = (Raise IndexError, s, []).
Proof.
  unfold set_range, bind, attr, lift. rewrite He. reflexivity.
Qed.

Lemma set_range_empty_ranges_witness :
  ranges {| ranges := []; centre_rpms := [880%Z] |} = [] /\
  result_of
    (set_range (of_Z 9)
       {| cls := {| ranges := []; centre_rpms := [880%Z] |};
          outer_rpm := of_Z 0; centre_rpm := of_Z 0; inject := false;
          in_range := false; velocity_tolerance := of_Z 50 |})
    = Raise IndexError.
Proof.
  split; [reflexivity|].
  rewrite (set_range_empty_ranges (of_Z 9)
             {| cls := {| ranges := []; centre_rpms := [880%Z] |};
                outer_rpm := of_Z 0; centre_rpm := of_Z 0; inject := false;
                in_range := false; velocity_tolerance := of_Z 50 |} eq_refl).
  reflexivity.
Defined.










(** ** Before and after [setup] *)

(** X14. [setup()] only configures: it sends no command to a motor or
    to the solenoid and leaves every attribute of [__init__] as it was.
    Once it has run, no method raises [AttributeError]: [execute()],
    [is_at_speed()], [is_ready()] and the two velocity getters behave as
    the methods of [Shooter] do with the handles present. *)
Theorem setup_enables (o : Lifecycle.obj) (hw : Sensors) :
  Lifecycle.self (fst (Lifecycle.setup o)) = Lifecycle.self o /\
  filter Lifecycle.is_Command (snd (Lifecycle.setup o)) = [] /\
  Lifecycle.execute (fst (Lifecycle.setup o))
    = Lifecycle.found (fst (Lifecycle.setup o)) (execute (Lifecycle.self o)) /\
  Lifecycle.is_at_speed (fst (Lifecycle.setup o)) hw
    = Lifecycle.Return (is_at_speed (Lifecycle.self o) hw) /\
  Lifecycle.is_ready (fst (Lifecycle.setup o)) hw
    = Lifecycle.Return (is_ready (Lifecycle.self o) hw) /\
  Lifecycle.get_centre_velocity (fst (Lifecycle.setup o)) hw
    = Lifecycle.Return (get_centre_velocity (Lifecycle.self o) hw) /\
  Lifecycle.get_outer_velocity (fst (Lifecycle.setup o)) hw
    = Lifecycle.Return (get_outer_velocity (Lifecycle.self o) hw).
Proof.
  repeat split.
  - unfold Lifecycle.is_at_speed, is_at_speed. cbn.
    destruct (le (abs (sub (centre_rpm (Lifecycle.self o)) _)) _); reflexivity.
  - unfold Lifecycle.is_ready, is_ready, Lifecycle.is_at_speed, is_at_speed.
    cbn. destruct (is_in_range (Lifecycle.self o)); [|reflexivity].
    destruct (le (abs (sub (centre_rpm (Lifecycle.self o)) _)) _);
      [|reflexivity].
    cbn. destruct (le (abs (sub (outer_rpm (Lifecycle.self o)) _)) _);
      reflexivity.
Qed.

(** X15. Before [setup()], on an object as constructed: [execute()]
    raises [AttributeError] without sending anything or touching the
    object, so a [fire()] request made before [setup()] is still pending
    and the first [execute()] after [setup()] sends its one pulse;
    [is_at_speed()] raises; [is_ready()] returns [False] while
    [in_range] is false and raises once it is true; [set_range()],
    [fire()] and [on_enable()] work as after [setup()]. *)
Theorem before_setup (s : t) (hw : Sensors) (d : num) :
  Lifecycle.execute (Lifecycle.constructed s)
    = (Lifecycle.Fail Lifecycle.AttributeError, Lifecycle.constructed s, []) /\
  Lifecycle.is_at_speed (Lifecycle.constructed s) hw
    = Lifecycle.Fail Lifecycle.AttributeError /\
  Lifecycle.is_ready (Lifecycle.constructed s) hw
    = (if in_range s then Lifecycle.Fail Lifecycle.AttributeError
       else Lifecycle.Return false) /\
  Lifecycle.self (snd (fst (Lifecycle.set_range d (Lifecycle.constructed s))))
    = state_of (set_range d s) /\
  (let o1 := snd (fst (Lifecycle.fire (Lifecycle.constructed s))) in
   let o2 := snd (fst (Lifecycle.execute o1)) in
   let o3 := fst (Lifecycle.setup o2) in
   fst (fst (Lifecycle.execute o3)) = Lifecycle.Return tt /\
   length (filter Lifecycle.is_pulse (snd (Lifecycle.execute o3))) = 1%nat /\
   inject (Lifecycle.self (snd (fst (Lifecycle.execute o3)))) = false).
Proof.
  split; [reflexivity|]. split; [reflexivity|].
  split; [unfold Lifecycle.is_ready, is_in_range; cbn;
          destruct (in_range s); reflexivity|].
  split; [reflexivity|].
  cbn. repeat split.
Qed.

(** ** What moves readiness *)

Lemma call_keeps_targets (c : Call) (s : t) :
  is_SetRange c = false ->
  exists s' l,
    call c s = (Ok tt, s', l) /\
    centre_rpm s' = centre_rpm s /\ outer_rpm s' = outer_rpm s /\
    in_range s' = in_range s /\ velocity_tolerance s' = velocity_tolerance s.
Proof.
  destruct c as [d| | |]; cbn [call is_SetRange]; intros N;
    try discriminate N.
  - rewrite fire_effect. do 2 eexists. repeat split.
  - rewrite execute_effect. do 2 eexists. split; [reflexivity|].
    destruct (inject s); repeat split.
  - rewrite on_enable_effect. do 2 eexists. repeat split.
Qed.

(** ** Sequences of calls before and after [setup] *)

(** With the four attributes present, a sequence of calls runs as the
    method bodies of [Shooter] do. *)
Lemma run_found (cs : list Call) (o : Lifecycle.obj) :
  Lifecycle.has_handles o = true ->
  Lifecycle.run cs o = Lifecycle.found o (run cs (Lifecycle.self o)).
Proof.
  revert o. induction cs as [|c cs IH]; intros o H.
  - destruct o. reflexivity.
  - assert (C : Lifecycle.call c o
                = Lifecycle.found o (call c (Lifecycle.self o))).
    { destruct c; try reflexivity.
      unfold Lifecycle.has_handles in H. apply andb_true_iff in H.
      destruct H as [H H4]. apply andb_true_iff in H. destruct H as [_ H3].
      cbn [Lifecycle.call call]. unfold Lifecycle.execute. rewrite H3, H4.
      reflexivity. }
    cbn [Lifecycle.run run]. rewrite C. unfold bind, Lifecycle.found.
    destruct (call c (Lifecycle.self o)) as [[[[]|e] s1] l1];
      cbn [result_of state_of log_of fst snd]; [|reflexivity].
    rewrite (IH (Lifecycle.with_self o s1)) by exact H.
    unfold Lifecycle.found. cbn [Lifecycle.self Lifecycle.with_self].
    destruct (run cs s1) as [[r s2] l2].
    cbn [result_of state_of log_of fst snd]. rewrite map_app. reflexivity.
Qed.

(** X9. Once [setup()] has run, no call raises on a Shooter, and only
    [execute] and [on_enable] talk to the hardware: over any sequence of
    calls made after [setup()] the hardware receives commands only, two
    [setReference] per [execute], one [stopMotor] per motor per
    [on_enable], the pulses, and nothing else.  In particular
    [set_range] and [fire] send nothing. *)
Theorem run_log_accounting (cs : list Call) (o : Lifecycle.obj)
    (Hs : cls (Lifecycle.self o) = Shooter) :
  fst (fst (Lifecycle.run cs (fst (Lifecycle.setup o)))) = Lifecycle.Return tt /\
  exists log,
    snd (Lifecycle.run cs (fst (Lifecycle.setup o)))
      = map Lifecycle.Command log /\
    count is_setReference log = (2 * calls is_Execute cs)%nat /\
    count (is_stop_of centre_motor) log = calls is_OnEnable cs /\
    count (is_stop_of outer_motor) log = calls is_OnEnable cs /\
    length log
      = (2 * calls is_Execute cs + 2 * calls is_OnEnable cs
         + count is_startPulse log)%nat.
Proof.
  rewrite (run_found cs (fst (Lifecycle.setup o)) eq_refl).
  cbn [Lifecycle.setup fst Lifecycle.self].
  destruct (run_accounting cs (Lifecycle.self o) Hs) as (R & A).
  unfold Lifecycle.found. cbn [fst snd]. rewrite R.
  split; [reflexivity|].
  exists (log_of (run cs (Lifecycle.self o))). split; [reflexivity|exact A].
Qed.

Lemma run_log_accounting_witness :
  cls (Lifecycle.self (Lifecycle.constructed fresh)) = Shooter /\
  fst (fst (Lifecycle.run [Fire; SetRange NaN; Execute; OnEnable; Execute]
              (fst (Lifecycle.setup (Lifecycle.constructed fresh)))))
  = Lifecycle.Return tt.
Proof.
  split; [reflexivity|].
  apply (run_log_accounting
           [Fire; SetRange NaN; Execute; OnEnable; Execute]
           (Lifecycle.constructed fresh)).
  reflexivity.
Defined.

(** What the readiness queries read of an object. *)
Lemma readiness_ext (o o1 : Lifecycle.obj) (hw : Sensors) :
  Lifecycle.has_outer_encoder o1 = Lifecycle.has_outer_encoder o ->
  Lifecycle.has_centre_encoder o1 = Lifecycle.has_centre_encoder o ->
  centre_rpm (Lifecycle.self o1) = centre_rpm (Lifecycle.self o) ->
  outer_rpm (Lifecycle.self o1) = outer_rpm (Lifecycle.self o) ->
  in_range (Lifecycle.self o1) = in_range (Lifecycle.self o) ->
  velocity_tolerance (Lifecycle.self o1)
    = velocity_tolerance (Lifecycle.self o) ->
  is_in_range (Lifecycle.self o1) = is_in_range (Lifecycle.self o) /\
  Lifecycle.is_at_speed o1 hw = Lifecycle.is_at_speed o hw /\
  Lifecycle.is_ready o1 hw = Lifecycle.is_ready o hw.
Proof.
  intros H1 H2 C O R V.
  unfold Lifecycle.is_ready, Lifecycle.is_at_speed, is_in_range, is_firing.
  rewrite H1, H2, C, O, R, V. repeat split.
Qed.

(** A call other than [set_range] keeps what the readiness queries
    read, whether it returns or raises. *)
Lemma call_keeps_readiness (c : Call) (o : Lifecycle.obj) :
  is_SetRange c = false ->
  Lifecycle.has_outer_encoder (snd (fst (Lifecycle.call c o)))
    = Lifecycle.has_outer_encoder o /\
  Lifecycle.has_centre_encoder (snd (fst (Lifecycle.call c o)))
    = Lifecycle.has_centre_encoder o /\
  Lifecycle.has_centre_pid (snd (fst (Lifecycle.call c o)))
    = Lifecycle.has_centre_pid o /\
  Lifecycle.has_outer_pid (snd (fst (Lifecycle.call c o)))
    = Lifecycle.has_outer_pid o /\
  centre_rpm (Lifecycle.self (snd (fst (Lifecycle.call c o))))
    = centre_rpm (Lifecycle.self o) /\
  outer_rpm (Lifecycle.self (snd (fst (Lifecycle.call c o))))
    = outer_rpm (Lifecycle.self o) /\
  in_range (Lifecycle.self (snd (fst (Lifecycle.call c o))))
    = in_range (Lifecycle.self o) /\
  velocity_tolerance (Lifecycle.self (snd (fst (Lifecycle.call c o))))
    = velocity_tolerance (Lifecycle.self o).
Proof.
  intros N. destruct c as [d| | |]; try discriminate N.
  - repeat split.
  - cbn [Lifecycle.call]. unfold Lifecycle.execute.
    destruct (Lifecycle.has_centre_pid o) eqn:P1;
      [destruct (Lifecycle.has_outer_pid o) eqn:P2|]; try (repeat split; assumption).
    unfold Lifecycle.found. rewrite execute_effect.
    cbn [fst snd state_of Lifecycle.self Lifecycle.with_self
         Lifecycle.has_outer_encoder Lifecycle.has_centre_encoder
         Lifecycle.has_centre_pid Lifecycle.has_outer_pid].
    destruct (inject (Lifecycle.self o)); repeat split; assumption.
  - repeat split.
Qed.

(** X10. Only [set_range()] moves the readiness answers.  Over any
    sequence of [fire()], [execute()] and [on_enable()] calls, on any
    object, before or after [setup()] and even when an [execute()] of the
    sequence raised, [is_in_range()], [is_at_speed()] and [is_ready()]
    answer for a given hardware reading what they answered before: the
    same value, or the same [AttributeError].  When the attributes of
    [setup()] exist, nothing in the sequence raises.  A pending or
    consumed [fire()] request in particular does not show in
    [is_ready()]. *)
Theorem readiness_frame (cs : list Call) (o : Lifecycle.obj) (hw : Sensors)
    (Hn : existsb is_SetRange cs = false) :
  is_in_range (Lifecycle.self (snd (fst (Lifecycle.run cs o))))
    = is_in_range (Lifecycle.self o) /\
  Lifecycle.is_at_speed (snd (fst (Lifecycle.run cs o))) hw
    = Lifecycle.is_at_speed o hw /\
  Lifecycle.is_ready (snd (fst (Lifecycle.run cs o))) hw
    = Lifecycle.is_ready o hw /\
  (Lifecycle.has_handles o = true ->
   fst (fst (Lifecycle.run cs o)) = Lifecycle.Return tt).
Proof.
  assert (G : forall cs o, existsb is_SetRange cs = false ->
    Lifecycle.has_outer_encoder (snd (fst (Lifecycle.run cs o)))
      = Lifecycle.has_outer_encoder o /\
    Lifecycle.has_centre_encoder (snd (fst (Lifecycle.run cs o)))
      = Lifecycle.has_centre_encoder o /\
    centre_rpm (Lifecycle.self (snd (fst (Lifecycle.run cs o))))
      = centre_rpm (Lifecycle.self o) /\
    outer_rpm (Lifecycle.self (snd (fst (Lifecycle.run cs o))))
      = outer_rpm (Lifecycle.self o) /\
    in_range (Lifecycle.self (snd (fst (Lifecycle.run cs o))))
      = in_range (Lifecycle.self o) /\
    velocity_tolerance (Lifecycle.self (snd (fst (Lifecycle.run cs o))))
      = velocity_tolerance (Lifecycle.self o)).
  { clear. induction cs as [|c cs IH]; intros o Hn.
    - repeat split.
    - cbn [existsb] in Hn. apply orb_false_iff in Hn. destruct Hn as [N1 N2].
      destruct (call_keeps_readiness c o N1)
        as (K1 & K2 & _ & _ & K5 & K6 & K7 & K8).
      cbn [Lifecycle.run].
      destruct (Lifecycle.call c o) as [[[[]|e] o1] l1];
        cbn [fst snd] in *; [|repeat split; assumption].
      destruct (IH o1 N2) as (I1 & I2 & I3 & I4 & I5 & I6).
      destruct (Lifecycle.run cs o1) as [[r o2] l2]. cbn [fst snd] in *.
      repeat split; congruence. }
  destruct (G cs o Hn) as (G1 & G2 & G3 & G4 & G5 & G6).
  destruct (readiness_ext o (snd (fst (Lifecycle.run cs o))) hw
              G1 G2 G3 G4 G5 G6) as (R1 & R2 & R3).
  split; [exact R1|]. split; [exact R2|]. split; [exact R3|].
  intros H. rewrite (run_found cs o H). unfold Lifecycle.found. cbn [fst].
  assert (F : forall cs s, existsb is_SetRange cs = false ->
                           result_of (run cs s) = Ok tt).
  { clear. induction cs as [|c cs IH]; intros s Hn; [reflexivity|].
    cbn [existsb] in Hn. apply orb_false_iff in Hn. destruct Hn as [N1 N2].
    destruct (call_keeps_targets c s N1) as (s' & l & E & _).
    rewrite (run_cons _ _ _ _ _ E). cbn [result_of fst]. apply IH, N2. }
  rewrite (F cs (Lifecycle.self o) Hn). reflexivity.
Qed.

Lemma readiness_frame_witness :
  existsb is_SetRange [Fire; Execute; OnEnable; Execute] = false /\
  Lifecycle.is_ready
    (snd (fst (Lifecycle.run [Fire; Execute; OnEnable; Execute]
                 (Lifecycle.constructed fresh))))
    {| centre_velocity := of_Z 0; outer_velocity := of_Z 0;
       loading_piston_get := true |}
  = Lifecycle.is_ready (Lifecycle.constructed fresh)
      {| centre_velocity := of_Z 0; outer_velocity := of_Z 0;
         loading_piston_get := true |}.
Proof.
  split; [reflexivity|].
  apply (readiness_frame [Fire; Execute; OnEnable; Execute]
           (Lifecycle.constructed fresh)).
  reflexivity.
Defined.
